(** * a5hash / a5rand: a shallow embedding of [a5hash.h] (version 5.6)

    The header defines two little-endian loaders, the 64x64->128 multiply
    [a5hash_umul128], the hash [a5hash] and the generator [a5rand].

    Conventions of the embedding.
    - [uint64_t] and [uint32_t] values are integers of [Z]; every C operation
      that can exceed the width is followed by its reduction ([u64], [u32]).
    - [size_t] is taken 64 bits wide ([usize]); the subtractions and products
      on it are reduced the same way.
    - The message is a [list byte]; a pointer into it is an offset of [Z].
      A load outside the list fails, and every load is recorded, so that the
      set of bytes a call touches is part of its result.
    - [memcpy] into an integer is read on a little-endian target. *)

From Stdlib Require Import ZArith List Lia Bool.
From Stdlib Require Import Strings.Byte.
Import ListNotations.

Local Open Scope Z_scope.

(** ** Fixed-width integers *)

Definition u32 (z : Z) : Z := z mod 2 ^ 32.
Definition u64 (z : Z) : Z := z mod 2 ^ 64.
Definition usize (z : Z) : Z := z mod 2 ^ 64.

Definition is_u32 (z : Z) : Prop := 0 <= z < 2 ^ 32.
Definition is_u64 (z : Z) : Prop := 0 <= z < 2 ^ 64.

(** [#define A5HASH_VAL10 0xAAAAAAAAAAAAAAAA], [#define A5HASH_VAL01 0x5555555555555555]. *)
Definition A5HASH_VAL10 : Z := 0xAAAAAAAAAAAAAAAA.
Definition A5HASH_VAL01 : Z := 0x5555555555555555.

(** ** [a5hash_umul128] *)

(** The preprocessor selects one of five bodies. *)
Inductive umul128_path : Type :=
| MsvcArm64   (* _MSC_VER and _M_ARM64: u * v and __umulh *)
| MsvcAmd64   (* _MSC_VER and _M_AMD64: _umul128 *)
| Int128      (* __SIZEOF_INT128__: __uint128_t *)
| IbmLp64     (* __IBMC__ and __LP64__: u * v and __mulhdu *)
| Portable.   (* otherwise: 32-bit partial products *)

(** Modelled from the spec: the compiler built-in [__umulh] is not part of
    the repository.  Section 4.2 gives the native paths the meaning of native
    128-bit unsigned multiplication: the result is the upper 64 bits of the
    exact product. *)
Definition intrinsic_umulh (u v : Z) : Z := u64 (Z.shiftr (u * v) 64).

(** Modelled from the spec: the compiler built-in [__mulhdu] is not part of
    the repository; as [__umulh], the upper 64 bits of the exact product. *)
Definition intrinsic_mulhdu (u v : Z) : Z := u64 (Z.shiftr (u * v) 64).

(** Modelled from the spec: the compiler built-in [_umul128] is not part of
    the repository; it returns the lower 64 bits of the exact product and
    stores the upper 64 bits through its third argument. *)
Definition intrinsic_umul128 (u v : Z) : Z * Z :=
  (u64 (u * v), u64 (Z.shiftr (u * v) 64)).

(** [*rl = u * v; *rh = __umulh( u, v );] *)
Definition umul128_msvc_arm64 (u v : Z) : Z * Z :=
  let rl := u64 (u * v) in
  let rh := intrinsic_umulh u v in
  (rl, rh).

(** [*rl = _umul128( u, v, rh );] *)
Definition umul128_msvc_amd64 (u v : Z) : Z * Z :=
  let '(rl, rh) := intrinsic_umul128 u v in
  (rl, rh).

(** [const __uint128_t r = (__uint128_t) u * v;
     *rl = (uint64_t) r; *rh = (uint64_t) ( r >> 64 );] *)
Definition u128 (z : Z) : Z := z mod 2 ^ 128.

Definition umul128_int128 (u v : Z) : Z * Z :=
  let r := u128 (u * v) in
  let rl := u64 r in
  let rh := u64 (Z.shiftr r 64) in
  (rl, rh).

(** [*rl = u * v; *rh = __mulhdu( u, v );] *)
Definition umul128_ibm_lp64 (u v : Z) : Z * Z :=
  let rl := u64 (u * v) in
  let rh := intrinsic_mulhdu u v in
  (rl, rh).

(** The fallback "adapted from Hacker's Delight". *)
Definition umul128_portable (u v : Z) : Z * Z :=
  let rl := u64 (u * v) in
  let u0 := u32 u in
  let v0 := u32 v in
  let w0 := u64 (u0 * v0) in
  let u1 := u32 (Z.shiftr u 32) in
  let v1 := u32 (Z.shiftr v 32) in
  let t := u64 (u64 (u1 * v0) + u32 (Z.shiftr w0 32)) in
  let w1 := u64 (u64 (u0 * v1) + u32 t) in
  let rh := u64 (u64 (u64 (u1 * v1) + u32 (Z.shiftr w1 32)) +
                 u32 (Z.shiftr t 32)) in
  (rl, rh).

Definition a5hash_umul128 (p : umul128_path) (u v : Z) : Z * Z :=
  match p with
  | MsvcArm64 => umul128_msvc_arm64 u v
  | MsvcAmd64 => umul128_msvc_amd64 u v
  | Int128 => umul128_int128 u v
  | IbmLp64 => umul128_ibm_lp64 u v
  | Portable => umul128_portable u v
  end.

(** The exact product, split at bit 64. *)
Definition exact_product (u v : Z) : Z * Z :=
  ((u * v) mod 2 ^ 64, (u * v) / 2 ^ 64).

(** ** Loads from the message

    A computation that reads the message: it fails on a read outside the
    buffer and returns, with its value, the reads it made in order. *)

Record access : Type := mk_access { acc_off : Z; acc_width : Z }.

Definition Load (A : Type) : Type := list byte -> option (A * list access).

Definition ret {A : Type} (x : A) : Load A := fun _ => Some (x, []).

Definition bind {A B : Type} (m : Load A) (k : A -> Load B) : Load B :=
  fun buf =>
    match m buf with
    | None => None
    | Some (x, l1) =>
        match k x buf with
        | None => None
        | Some (y, l2) => Some (y, l1 ++ l2)
        end
    end.

Definition fail {A : Type} : Load A := fun _ => None.

Notation "x <- m ;; k" := (bind m (fun x => k))
  (at level 61, m at next level, right associativity).

Definition byte_val (b : byte) : Z := Z.of_N (Byte.to_N b).

(** The integer whose little-endian representation is [bs]. *)
Fixpoint le_decode (bs : list byte) : Z :=
  match bs with
  | [] => 0
  | b :: rest => byte_val b + 256 * le_decode rest
  end.

(** The [n] bytes at offset [p]. *)
Definition read_bytes (p : Z) (n : nat) : Load (list byte) :=
  fun buf =>
    if (0 <=? p) && (p + Z.of_nat n <=? Z.of_nat (length buf))
    then Some (firstn n (skipn (Z.to_nat p) buf), [mk_access p (Z.of_nat n)])
    else None.

(** [uint32_t v; memcpy( &v, p, 4 ); return( v );] *)
Definition a5hash_lu32 (p : Z) : Load Z :=
  v <- read_bytes p 4 ;; ret (le_decode v).

(** [uint64_t v; memcpy( &v, p, 8 ); return( v );] *)
Definition a5hash_lu64 (p : Z) : Load Z :=
  v <- read_bytes p 8 ;; ret (le_decode v).

(** [Msg[ i ]] on a [const uint8_t*]. *)
Definition msg_index (Msg i : Z) : Load Z :=
  v <- read_bytes (Msg + i) 1 ;; ret (le_decode v).

(** ** [a5hash] *)

Section WithPath.

Variable path : umul128_path.

(** Lines 296-308: the masks, the seeds and the fold of [UseSeed]; the
    result is [(Seed1, Seed2, val10)], [val01] being still the constant. *)
Definition a5hash_init (MsgLen UseSeed : Z) : Z * Z * Z :=
  let val01 := A5HASH_VAL01 in
  let val10 := A5HASH_VAL10 in
  let Seed1 := Z.lxor 0x243F6A8885A308D3 MsgLen in
  let Seed2 := Z.lxor 0x452821E638D01377 MsgLen in
  let '(Seed1, Seed2) :=
    a5hash_umul128 path (Z.lxor Seed2 (Z.land UseSeed val10))
                        (Z.lxor Seed1 (Z.land UseSeed val01)) in
  let val10 := Z.lxor val10 Seed2 in
  (Seed1, Seed2, val10).

(** Line 315: [const size_t mo = MsgLen >> 3;] *)
Definition a5hash_mo (MsgLen : Z) : Z := Z.shiftr MsgLen 3.

(** Lines 314-320, the branch [3 < MsgLen < 17]; the operands of [|] are
    read left to right. *)
Definition a5hash_mid (Msg MsgLen : Z) : Load (Z * Z) :=
  let Msg4 := Msg + MsgLen - 4 in
  let mo := a5hash_mo MsgLen in
  x0 <- a5hash_lu32 Msg ;;
  x1 <- a5hash_lu32 Msg4 ;;
  let a := Z.lor (u64 (Z.shiftl x0 32)) x1 in
  y0 <- a5hash_lu32 (Msg + usize (mo * 4)) ;;
  y1 <- a5hash_lu32 (Msg4 - usize (mo * 4)) ;;
  let b := Z.lor (u64 (Z.shiftl y0 32)) y1 in
  ret (a, b).

(** Lines 324-340, the branch [MsgLen <= 3]. *)
Definition a5hash_short (Msg MsgLen : Z) : Load (Z * Z) :=
  let a := 0 in
  let b := 0 in
  if negb (MsgLen =? 0) then
    a <- msg_index Msg 0 ;;
    if negb (MsgLen =? 1) then
      m1 <- msg_index Msg 1 ;;
      let a := Z.lor a (u64 (Z.shiftl m1 8)) in
      if negb (MsgLen =? 2) then
        m2 <- msg_index Msg 2 ;;
        let a := Z.lor a (u64 (Z.shiftl m2 16)) in
        ret (a, b)
      else ret (a, b)
    else ret (a, b)
  else ret (a, b).

(** Lines 347-358, the [do ... while( MsgLen > 16 )] loop.  Each unit of
    [fuel] pays for one execution of the body; the result is the final
    [(Msg, MsgLen, Seed1, Seed2)]. *)
Fixpoint a5hash_loop (fuel : nat) (Msg MsgLen Seed1 Seed2 val01 val10 : Z)
  : Load (Z * Z * Z * Z) :=
  match fuel with
  | O => fail
  | S fuel' =>
      x <- a5hash_lu64 Msg ;;
      y <- a5hash_lu64 (Msg + 8) ;;
      let '(Seed1, Seed2) :=
        a5hash_umul128 path (Z.lxor Seed1 x) (Z.lxor Seed2 y) in
      let MsgLen := usize (MsgLen - 16) in
      let Msg := Msg + 16 in
      let Seed1 := u64 (Seed1 + val01) in
      let Seed2 := u64 (Seed2 + val10) in
      if 16 <? MsgLen
      then a5hash_loop fuel' Msg MsgLen Seed1 Seed2 val01 val10
      else ret (Msg, MsgLen, Seed1, Seed2)
  end.

(** Lines 345-361, the branch [MsgLen >= 17]; the result is
    [(a, b, Seed1, Seed2, val01)]. *)
Definition a5hash_stream (Msg MsgLen Seed1 Seed2 val01 val10 : Z)
  : Load (Z * Z * Z * Z * Z) :=
  let val01 := Z.lxor val01 Seed1 in
  r <- a5hash_loop (Z.to_nat MsgLen) Msg MsgLen Seed1 Seed2 val01 val10 ;;
  let '(Msg, MsgLen, Seed1, Seed2) := r in
  a <- a5hash_lu64 (Msg + MsgLen - 16) ;;
  b <- a5hash_lu64 (Msg + MsgLen - 8) ;;
  ret (a, b, Seed1, Seed2, val01).

(** Lines 310-362: the choice of [a] and [b] by length. *)
Definition a5hash_ingest (Msg MsgLen Seed1 Seed2 val01 val10 : Z)
  : Load (Z * Z * Z * Z * Z) :=
  if MsgLen <? 17 then
    if 3 <? MsgLen then
      r <- a5hash_mid Msg MsgLen ;;
      let '(a, b) := r in ret (a, b, Seed1, Seed2, val01)
    else
      r <- a5hash_short Msg MsgLen ;;
      let '(a, b) := r in ret (a, b, Seed1, Seed2, val01)
  else
    a5hash_stream Msg MsgLen Seed1 Seed2 val01 val10.

(** Lines 364-368: the two closing multiplications. *)
Definition a5hash_final (Seed1 Seed2 val01 a b : Z) : Z :=
  let '(Seed1, Seed2) :=
    a5hash_umul128 path (Z.lxor Seed1 a) (Z.lxor Seed2 b) in
  let '(Seed1, Seed2) :=
    a5hash_umul128 path (Z.lxor Seed1 val01) Seed2 in
  Z.lxor Seed1 Seed2.

(** Lines 294-368, the whole body, with [Msg] the offset 0 of the buffer. *)
Definition a5hash_run (MsgLen UseSeed : Z) : Load Z :=
  let Msg := 0 in
  let val01 := A5HASH_VAL01 in
  let '(Seed1, Seed2, val10) := a5hash_init MsgLen UseSeed in
  r <- a5hash_ingest Msg MsgLen Seed1 Seed2 val01 val10 ;;
  let '(a, b, Seed1, Seed2, val01) := r in
  ret (a5hash_final Seed1 Seed2 val01 a b).

(** [a5hash( Msg0, MsgLen, UseSeed )]: the digest and the loads made, or
    [None] when a load leaves the buffer [Msg0]. *)
Definition a5hash (Msg0 : list byte) (MsgLen UseSeed : Z)
  : option (Z * list access) :=
  a5hash_run MsgLen UseSeed Msg0.

(** ** [a5rand]

    The two state words are passed in and out: the result is the returned
    value and the new [( *Seed1, *Seed2 )]. *)
Definition a5rand (Seed1 Seed2 : Z) : Z * (Z * Z) :=
  let s1 := Seed1 in
  let s2 := Seed2 in
  let '(s1, s2) :=
    a5hash_umul128 path (u64 (s1 + A5HASH_VAL01)) (u64 (s2 + A5HASH_VAL10)) in
  (Z.lxor s1 s2, (s1, s2)).

(** The state after one call, and after [n] calls. *)
Definition a5rand_next (s : Z * Z) : Z * Z := snd (a5rand (fst s) (snd s)).

Definition a5rand_states (n : N) (s : Z * Z) : Z * Z :=
  N.iter n a5rand_next s.

(** The value returned by the call made in state [s]. *)
Definition a5rand_output (s : Z * Z) : Z := fst (a5rand (fst s) (snd s)).

End WithPath.

(** ** The algorithm in the words of the specification

    Section 4.3 of the specification, written over the whole message and the
    exact product; none of these definitions is used by the model above. *)

(** The little-endian value of the [n] bytes at offset [off]: byte [off + i]
    weighs [256 ^ i]. *)
Fixpoint spec_load (n : nat) (Msg : list byte) (off : Z) : Z :=
  match n with
  | O => 0
  | S n' => byte_val (nth (Z.to_nat off) Msg x00)
            + 256 * spec_load n' Msg (off + 1)
  end.

(** Steps 1-3: the seeds after the caller's seed is folded in, and [val10]. *)
Definition spec_init (len seed : Z) : Z * Z * Z :=
  let Seed1 := Z.lxor 0x243F6A8885A308D3 len in
  let Seed2 := Z.lxor 0x452821E638D01377 len in
  let '(lo, hi) :=
    exact_product (Z.lxor Seed2 (Z.land seed 0xAAAAAAAAAAAAAAAA))
                  (Z.lxor Seed1 (Z.land seed 0x5555555555555555)) in
  (lo, hi, Z.lxor 0xAAAAAAAAAAAAAAAA hi).

(** Step 6: the finalization. *)
Definition spec_final (Seed1 Seed2 val01 a b : Z) : Z :=
  let '(lo, hi) := exact_product (Z.lxor Seed1 a) (Z.lxor Seed2 b) in
  let '(lo, hi) := exact_product (Z.lxor lo val01) hi in
  Z.lxor lo hi.

(** Step 4, lengths 0..3: byte 0 in bits 0-7, byte 1 in bits 8-15, byte 2 in
    bits 16-23, as far as they are present. *)
Definition spec_short_a (Msg : list byte) : Z :=
  match Msg with
  | [] => 0
  | [m0] => byte_val m0
  | [m0; m1] => byte_val m0 + byte_val m1 * 2 ^ 8
  | m0 :: m1 :: m2 :: _ => byte_val m0 + byte_val m1 * 2 ^ 8 + byte_val m2 * 2 ^ 16
  end.

(** Step 4, lengths 4..16, with [mo = length / 8]. *)
Definition spec_mid_a (Msg : list byte) : Z :=
  let len := Z.of_nat (length Msg) in
  Z.lor (Z.shiftl (spec_load 4 Msg 0) 32) (spec_load 4 Msg (len - 4)).

Definition spec_mid_b (Msg : list byte) : Z :=
  let len := Z.of_nat (length Msg) in
  let mo := len / 8 in
  Z.lor (Z.shiftl (spec_load 4 Msg (mo * 4)) 32)
        (spec_load 4 Msg (len - 4 - mo * 4)).

(** The four windows of step 4 for a message of [len] bytes. *)
Definition spec_mid_windows (len : Z) : list access :=
  let mo := len / 8 in
  [ mk_access 0 4; mk_access (len - 4) 4;
    mk_access (4 * mo) 4; mk_access (len - 4 - 4 * mo) 4 ].

(** Step 5: "while more than 16 bytes remain", from offset [pos] with
    [remaining] bytes to go; [fuel] bounds the number of rounds. *)
Fixpoint spec_stream_loop (fuel : nat) (Msg : list byte)
    (pos remaining Seed1 Seed2 val01 val10 : Z) : Z * Z :=
  match fuel with
  | O => (Seed1, Seed2)
  | S fuel' =>
      if 16 <? remaining then
        let '(lo, hi) :=
          exact_product (Z.lxor Seed1 (spec_load 8 Msg pos))
                        (Z.lxor Seed2 (spec_load 8 Msg (pos + 8))) in
        spec_stream_loop fuel' Msg (pos + 16) (remaining - 16)
          ((lo + val01) mod 2 ^ 64) ((hi + val10) mod 2 ^ 64) val01 val10
      else (Seed1, Seed2)
  end.

(** Steps 1-3, 5 and 6 for a message longer than 16 bytes. *)
Definition spec_stream_digest (Msg : list byte) (seed : Z) : Z :=
  let len := Z.of_nat (length Msg) in
  let '(Seed1, Seed2, val10) := spec_init len seed in
  let val01 := Z.lxor 0x5555555555555555 Seed1 in
  let '(Seed1, Seed2) :=
    spec_stream_loop (length Msg) Msg 0 len Seed1 Seed2 val01 val10 in
  let a := spec_load 8 Msg (len - 16) in
  let b := spec_load 8 Msg (len - 8) in
  spec_final Seed1 Seed2 val01 a b.

(** Steps 1-4 and 6 for a message of at most 3 bytes. *)
Definition spec_short_digest (Msg : list byte) (seed : Z) : Z :=
  let len := Z.of_nat (length Msg) in
  let '(Seed1, Seed2, _) := spec_init len seed in
  spec_final Seed1 Seed2 0x5555555555555555 (spec_short_a Msg) 0.

(** Steps 1-4 and 6 for a message of 4 to 16 bytes. *)
Definition spec_mid_digest (Msg : list byte) (seed : Z) : Z :=
  let len := Z.of_nat (length Msg) in
  let '(Seed1, Seed2, _) := spec_init len seed in
  spec_final Seed1 Seed2 0x5555555555555555 (spec_mid_a Msg) (spec_mid_b Msg).

(** The loads of the branch [MsgLen <= 3]: one byte at each offset. *)
Definition byte_loads (n : nat) : list access :=
  map (fun i => mk_access (Z.of_nat i) 1) (seq 0 n).

(** The loads of step 5: two 8-byte windows per round, then the two windows
    that end the message. *)
Fixpoint spec_stream_loads (fuel : nat) (pos remaining : Z) : list access :=
  match fuel with
  | O => []
  | S fuel' =>
      if 16 <? remaining then
        mk_access pos 8 :: mk_access (pos + 8) 8
          :: spec_stream_loads fuel' (pos + 16) (remaining - 16)
      else []
  end.

Definition spec_tail_loads (len : Z) : list access :=
  [ mk_access (len - 16) 8; mk_access (len - 8) 8 ].

(** A load that stays inside a buffer of [len] bytes. *)
Definition in_bounds (len : Z) (a : access) : Prop :=
  0 <= acc_off a /\ acc_off a + acc_width a <= len /\
  (acc_width a = 1 \/ acc_width a = 4 \/ acc_width a = 8).

(** Byte [i] lies in the window of the load [a]. *)
Definition covers (i : Z) (a : access) : Prop :=
  acc_off a <= i < acc_off a + acc_width a.

(** ** Arithmetic of the reductions *)

Lemma u64_range z : is_u64 (u64 z).
Proof. unfold is_u64, u64. apply Z.mod_pos_bound. lia. Qed.

Lemma u32_range z : is_u32 (u32 z).
Proof. unfold is_u32, u32. apply Z.mod_pos_bound. lia. Qed.

Lemma u64_small z : is_u64 z -> u64 z = z.
Proof. unfold is_u64, u64. intros H. apply Z.mod_small. exact H. Qed.

Lemma u32_small z : is_u32 z -> u32 z = z.
Proof. unfold is_u32, u32. intros H. apply Z.mod_small. exact H. Qed.

Lemma product_bound u v : is_u64 u -> is_u64 v -> 0 <= u * v < 2 ^ 128.
Proof.
  unfold is_u64. intros Hu Hv.
  change (2 ^ 128) with (2 ^ 64 * 2 ^ 64). nia.
Qed.

Lemma high_word_range u v : is_u64 u -> is_u64 v -> is_u64 (u * v / 2 ^ 64).
Proof.
  intros Hu Hv. pose proof (product_bound u v Hu Hv) as Hp.
  unfold is_u64. split.
  - apply Z.div_pos; lia.
  - apply Z.div_lt_upper_bound; [lia|].
    change (2 ^ 64 * 2 ^ 64) with (2 ^ 128). lia.
Qed.

Lemma intrinsic_high_exact u v :
  is_u64 u -> is_u64 v -> u64 (Z.shiftr (u * v) 64) = u * v / 2 ^ 64.
Proof.
  intros Hu Hv. rewrite Z.shiftr_div_pow2 by lia.
  apply u64_small, high_word_range; assumption.
Qed.

Lemma umul128_int128_exact u v :
  is_u64 u -> is_u64 v -> umul128_int128 u v = exact_product u v.
Proof.
  intros Hu Hv. unfold umul128_int128, exact_product, u128.
  rewrite (Z.mod_small (u * v) (2 ^ 128)) by (apply product_bound; assumption).
  rewrite intrinsic_high_exact by assumption. reflexivity.
Qed.

(** Splitting a 64-bit word into its two 32-bit halves. *)
Lemma split_halves u :
  is_u64 u ->
  u = u32 (Z.shiftr u 32) * 2 ^ 32 + u32 u /\
  is_u32 (u32 (Z.shiftr u 32)) /\ is_u32 (u32 u).
Proof.
  intros Hu. split; [|split; apply u32_range].
  unfold u32, is_u64 in *. rewrite Z.shiftr_div_pow2 by lia.
  rewrite (Z.mod_small (u / 2 ^ 32)).
  - pose proof (Z.div_mod u (2 ^ 32)). lia.
  - split; [apply Z.div_pos; lia|].
    apply Z.div_lt_upper_bound; [lia|].
    change (2 ^ 32 * 2 ^ 32) with (2 ^ 64). lia.
Qed.

Lemma umul128_portable_exact u v :
  is_u64 u -> is_u64 v -> umul128_portable u v = exact_product u v.
Proof.
  intros Hu Hv.
  destruct (split_halves u Hu) as (Eu & Hu1 & Hu0).
  destruct (split_halves v Hv) as (Ev & Hv1 & Hv0).
  unfold umul128_portable, exact_product.
  set (u1 := u32 (Z.shiftr u 32)) in *. set (u0 := u32 u) in *.
  set (v1 := u32 (Z.shiftr v 32)) in *. set (v0 := u32 v) in *.
  unfold is_u32 in *.
  assert (B00 : 0 <= u0 * v0 <= (2 ^ 32 - 1) * (2 ^ 32 - 1)) by nia.
  assert (B10 : 0 <= u1 * v0 <= (2 ^ 32 - 1) * (2 ^ 32 - 1)) by nia.
  assert (B01 : 0 <= u0 * v1 <= (2 ^ 32 - 1) * (2 ^ 32 - 1)) by nia.
  assert (B11 : 0 <= u1 * v1 <= (2 ^ 32 - 1) * (2 ^ 32 - 1)) by nia.
  rewrite (u64_small (u0 * v0)) by (unfold is_u64; lia).
  rewrite (u64_small (u1 * v0)) by (unfold is_u64; lia).
  rewrite (u64_small (u0 * v1)) by (unfold is_u64; lia).
  rewrite (u64_small (u1 * v1)) by (unfold is_u64; lia).
  rewrite !Z.shiftr_div_pow2 by lia.
  (* w0 = w0h * 2^32 + w0l *)
  pose proof (Z.div_mod (u0 * v0) (2 ^ 32) ltac:(lia)) as E0.
  pose proof (Z.mod_pos_bound (u0 * v0) (2 ^ 32) ltac:(lia)) as L0.
  set (w0h := u0 * v0 / 2 ^ 32) in *. set (w0l := (u0 * v0) mod 2 ^ 32) in *.
  assert (H0 : 0 <= w0h < 2 ^ 32) by lia.
  rewrite (u32_small w0h) by exact H0.
  rewrite (u64_small (u1 * v0 + w0h)) by (unfold is_u64; lia).
  (* t = th * 2^32 + tl *)
  set (t := u1 * v0 + w0h) in *.
  pose proof (Z.div_mod t (2 ^ 32) ltac:(lia)) as Et.
  pose proof (Z.mod_pos_bound t (2 ^ 32) ltac:(lia)) as Lt.
  unfold u32.
  set (th := t / 2 ^ 32) in *. set (tl := t mod 2 ^ 32) in *.
  assert (Ht : 0 <= th < 2 ^ 32) by lia.
  rewrite (u64_small (u0 * v1 + tl)) by (unfold is_u64; lia).
  (* w1 = w1h * 2^32 + w1l *)
  set (w1 := u0 * v1 + tl) in *.
  pose proof (Z.div_mod w1 (2 ^ 32) ltac:(lia)) as E1.
  pose proof (Z.mod_pos_bound w1 (2 ^ 32) ltac:(lia)) as L1.
  set (w1h := w1 / 2 ^ 32) in *. set (w1l := w1 mod 2 ^ 32) in *.
  assert (H1 : 0 <= w1h < 2 ^ 32) by lia.
  rewrite (Z.mod_small w1h) by lia.
  rewrite (Z.mod_small th) by lia.
  rewrite (u64_small (u1 * v1 + w1h)) by (unfold is_u64; lia).
  rewrite (u64_small (u1 * v1 + w1h + th)) by (unfold is_u64; lia).
  assert (P : u * v = (u1 * v1 + w1h + th) * 2 ^ 64 + (w1l * 2 ^ 32 + w0l)).
  { rewrite Eu, Ev. change (2 ^ 64) with (2 ^ 32 * 2 ^ 32). nia. }
  assert (R : 0 <= w1l * 2 ^ 32 + w0l < 2 ^ 64) by lia.
  pose proof (Z.div_mod_unique (2 ^ 64) (u * v / 2 ^ 64) (u1 * v1 + w1h + th)
                ((u * v) mod 2 ^ 64) (w1l * 2 ^ 32 + w0l)) as U.
  pose proof (Z.div_mod (u * v) (2 ^ 64) ltac:(lia)) as Ep.
  pose proof (Z.mod_pos_bound (u * v) (2 ^ 64) ltac:(lia)) as Lp.
  destruct U as [Uq Ur]; [left; lia | left; lia | lia |].
  unfold u64 at 1. rewrite Uq. reflexivity.
Qed.

(** ** Bit operations stay within 64 bits *)

Lemma is_u64_land_ones z : is_u64 z <-> Z.land z (Z.ones 64) = z.
Proof.
  rewrite Z.land_ones by lia. unfold is_u64. split.
  - intros H. apply Z.mod_small. exact H.
  - intros H. rewrite <- H. apply Z.mod_pos_bound. lia.
Qed.

Lemma lxor_u64 x y : is_u64 x -> is_u64 y -> is_u64 (Z.lxor x y).
Proof.
  rewrite !is_u64_land_ones. intros Hx Hy.
  rewrite <- Hx at 2. rewrite <- Hy at 2.
  apply Z.bits_inj'. intros n Hn.
  rewrite !Z.land_spec, !Z.lxor_spec, !Z.land_spec.
  destruct (Z.testbit x n), (Z.testbit y n), (Z.testbit (Z.ones 64) n);
    reflexivity.
Qed.

Lemma lor_u64 x y : is_u64 x -> is_u64 y -> is_u64 (Z.lor x y).
Proof.
  rewrite !is_u64_land_ones. intros Hx Hy.
  rewrite Z.land_lor_distr_l, Hx, Hy. reflexivity.
Qed.

Lemma land_u64_r x y : is_u64 y -> is_u64 (Z.land x y).
Proof.
  rewrite !is_u64_land_ones. intros Hy.
  rewrite <- Z.land_assoc, Hy. reflexivity.
Qed.

Lemma exact_product_u64 u v lo hi :
  is_u64 u -> is_u64 v -> exact_product u v = (lo, hi) ->
  is_u64 lo /\ is_u64 hi.
Proof.
  unfold exact_product. intros Hu Hv E. inversion E; subst. split.
  - apply (u64_range (u * v)).
  - apply high_word_range; assumption.
Qed.

(** Every path computes the exact product on 64-bit operands. *)
Lemma a5hash_umul128_exact path u v :
  is_u64 u -> is_u64 v -> a5hash_umul128 path u v = exact_product u v.
Proof.
  intros Hu Hv. destruct path; simpl.
  - unfold umul128_msvc_arm64, intrinsic_umulh, exact_product.
    rewrite intrinsic_high_exact by assumption. reflexivity.
  - unfold umul128_msvc_amd64, intrinsic_umul128, exact_product.
    rewrite intrinsic_high_exact by assumption. reflexivity.
  - apply umul128_int128_exact; assumption.
  - unfold umul128_ibm_lp64, intrinsic_mulhdu, exact_product.
    rewrite intrinsic_high_exact by assumption. reflexivity.
  - apply umul128_portable_exact; assumption.
Qed.

(** C1. On 64-bit operands every body of [a5hash_umul128] -- the native
    ones and the fallback with four 32x32->64 partial products -- returns
    [(low, high)] with [high * 2^64 + low] equal to the exact product
    [u * v], both words within 64 bits; hence any two bodies return the
    same pair. *)
Theorem a5hash_umul128_all_paths_exact (p q : umul128_path) (u v : Z) :
  is_u64 u -> is_u64 v ->
  (snd (a5hash_umul128 p u v) * 2 ^ 64 + fst (a5hash_umul128 p u v) = u * v
   /\ is_u64 (fst (a5hash_umul128 p u v))
   /\ is_u64 (snd (a5hash_umul128 p u v)))
  /\ a5hash_umul128 p u v = a5hash_umul128 q u v.
Proof.
  intros Hu Hv. rewrite (a5hash_umul128_exact p), (a5hash_umul128_exact q)
    by assumption.
  split; [|reflexivity]. unfold exact_product. simpl fst. simpl snd.
  split; [|split].
  - pose proof (Z.div_mod (u * v) (2 ^ 64) ltac:(lia)). lia.
  - apply (u64_range (u * v)).
  - apply high_word_range; assumption.
Qed.

Lemma a5hash_umul128_all_paths_exact_witness :
  is_u64 (2 ^ 64 - 1) /\ is_u64 (2 ^ 64 - 1)
  /\ (snd (a5hash_umul128 Portable (2 ^ 64 - 1) (2 ^ 64 - 1)) * 2 ^ 64
      + fst (a5hash_umul128 Portable (2 ^ 64 - 1) (2 ^ 64 - 1))
      = (2 ^ 64 - 1) * (2 ^ 64 - 1)
      /\ is_u64 (fst (a5hash_umul128 Portable (2 ^ 64 - 1) (2 ^ 64 - 1)))
      /\ is_u64 (snd (a5hash_umul128 Portable (2 ^ 64 - 1) (2 ^ 64 - 1))))
  /\ a5hash_umul128 Portable (2 ^ 64 - 1) (2 ^ 64 - 1)
     = a5hash_umul128 Int128 (2 ^ 64 - 1) (2 ^ 64 - 1).
Proof.
  assert (H : is_u64 (2 ^ 64 - 1)) by (unfold is_u64; lia).
  split; [exact H|]. split; [exact H|].
  apply (a5hash_umul128_all_paths_exact Portable Int128); exact H.
Defined.

(** ** The loaders *)

Lemma byte_val_range b : 0 <= byte_val b < 256.
Proof.
  unfold byte_val. pose proof (Byte.to_N_bounded b). lia.
Qed.

Lemma spec_load_range n Msg off :
  0 <= spec_load n Msg off < 256 ^ Z.of_nat n.
Proof.
  revert off. induction n as [|n IH]; intros off.
  - simpl. lia.
  - rewrite Nat2Z.inj_succ, Z.pow_succ_r by lia.
    cbn [spec_load].
    pose proof (byte_val_range (nth (Z.to_nat off) Msg x00)).
    specialize (IH (off + 1)). lia.
Qed.

Lemma spec_load4_u32 Msg off : is_u32 (spec_load 4 Msg off).
Proof. apply (spec_load_range 4). Qed.

Lemma spec_load8_u64 Msg off : is_u64 (spec_load 8 Msg off).
Proof. apply (spec_load_range 8). Qed.

Lemma skipn_cons_nth (buf : list byte) (k : nat) :
  (k < length buf)%nat -> skipn k buf = nth k buf x00 :: skipn (S k) buf.
Proof.
  revert k. induction buf as [|b buf IH]; intros k Hk.
  - simpl in Hk. lia.
  - destruct k as [|k].
    + reflexivity.
    + simpl in Hk. change (skipn (S k) (b :: buf)) with (skipn k buf).
      rewrite (IH k) by lia. reflexivity.
Qed.

(** What [memcpy] copies from offset [off] decodes to [spec_load]. *)
Lemma le_decode_window n buf off :
  0 <= off -> off + Z.of_nat n <= Z.of_nat (length buf) ->
  le_decode (firstn n (skipn (Z.to_nat off) buf)) = spec_load n buf off.
Proof.
  revert off. induction n as [|n IH]; intros off H0 H1.
  - reflexivity.
  - rewrite skipn_cons_nth by lia.
    cbn [firstn le_decode spec_load].
    replace (S (Z.to_nat off)) with (Z.to_nat (off + 1)) by lia.
    rewrite IH by lia. reflexivity.
Qed.

Lemma read_bytes_ok p n buf :
  0 <= p -> p + Z.of_nat n <= Z.of_nat (length buf) ->
  read_bytes p n buf =
  Some (firstn n (skipn (Z.to_nat p) buf), [mk_access p (Z.of_nat n)]).
Proof.
  intros H0 H1. unfold read_bytes.
  destruct (Z.leb_spec 0 p); [|lia].
  destruct (Z.leb_spec (p + Z.of_nat n) (Z.of_nat (length buf))); [|lia].
  reflexivity.
Qed.

Lemma a5hash_lu32_ok p buf :
  0 <= p -> p + 4 <= Z.of_nat (length buf) ->
  a5hash_lu32 p buf = Some (spec_load 4 buf p, [mk_access p 4]).
Proof.
  intros H0 H1. unfold a5hash_lu32, bind.
  rewrite read_bytes_ok by (simpl; lia).
  unfold ret. rewrite (le_decode_window 4) by (simpl; lia). reflexivity.
Qed.

Lemma a5hash_lu64_ok p buf :
  0 <= p -> p + 8 <= Z.of_nat (length buf) ->
  a5hash_lu64 p buf = Some (spec_load 8 buf p, [mk_access p 8]).
Proof.
  intros H0 H1. unfold a5hash_lu64, bind.
  rewrite read_bytes_ok by (simpl; lia).
  unfold ret. rewrite (le_decode_window 8) by (simpl; lia). reflexivity.
Qed.

Lemma msg_index_ok i buf :
  0 <= i -> i + 1 <= Z.of_nat (length buf) ->
  msg_index 0 i buf = Some (spec_load 1 buf i, [mk_access i 1]).
Proof.
  intros H0 H1. unfold msg_index, bind. rewrite Z.add_0_l.
  rewrite read_bytes_ok by (simpl; lia).
  unfold ret. rewrite (le_decode_window 1) by (simpl; lia). reflexivity.
Qed.

Lemma bind_ok {A B : Type} (m : Load A) (k : A -> Load B) buf x l :
  m buf = Some (x, l) ->
  bind m k buf = match k x buf with
                 | None => None
                 | Some (y, l2) => Some (y, l ++ l2)
                 end.
Proof. intros E. unfold bind. rewrite E. reflexivity. Qed.

(** ** Shifts and ors as sums *)

Lemma lor_shiftl_add a b n :
  0 <= n -> 0 <= a < 2 ^ n -> Z.lor a (Z.shiftl b n) = a + b * 2 ^ n.
Proof.
  intros Hn Ha.
  assert (D : Z.land a (Z.shiftl b n) = 0).
  { apply Z.bits_inj'. intros m Hm. rewrite Z.land_spec, Z.bits_0.
    destruct (Z.lt_ge_cases m n) as [L|G].
    - rewrite Z.shiftl_spec_low by exact L. apply andb_false_r.
    - rewrite <- (Z.mod_small a (2 ^ n)) by exact Ha.
      rewrite Z.mod_pow2_bits_high by lia. reflexivity. }
  rewrite <- Z.shiftl_mul_pow2 by exact Hn.
  rewrite <- Z.add_lor_land, D. lia.
Qed.

Lemma shiftl_lor_add hi lo :
  is_u32 lo -> Z.lor (Z.shiftl hi 32) lo = hi * 2 ^ 32 + lo.
Proof.
  intros H. rewrite Z.lor_comm, lor_shiftl_add by (unfold is_u32 in H; lia).
  lia.
Qed.

Lemma shiftl32_u64 x : is_u32 x -> u64 (Z.shiftl x 32) = Z.shiftl x 32.
Proof.
  intros H. apply u64_small. rewrite Z.shiftl_mul_pow2 by lia.
  unfold is_u32, is_u64 in *. change (2 ^ 64) with (2 ^ 32 * 2 ^ 32). nia.
Qed.

Lemma shiftl_byte_u64 x n :
  0 <= x < 256 -> 0 <= n <= 56 -> u64 (Z.shiftl x n) = x * 2 ^ n.
Proof.
  intros Hx Hn. rewrite Z.shiftl_mul_pow2 by lia. apply u64_small.
  unfold is_u64. split; [apply Z.mul_nonneg_nonneg; lia|].
  assert (2 ^ n <= 2 ^ 56) by (apply Z.pow_le_mono_r; lia).
  change (2 ^ 64) with (256 * 2 ^ 56). nia.
Qed.

(** ** Initialization and finalization *)
(** ** Initialization and finalization *)

Lemma val01_u64 : is_u64 A5HASH_VAL01.
Proof. unfold is_u64, A5HASH_VAL01. lia. Qed.

Lemma val10_u64 : is_u64 A5HASH_VAL10.
Proof. unfold is_u64, A5HASH_VAL10. lia. Qed.

Lemma pi_seed1_u64 : is_u64 0x243F6A8885A308D3.
Proof. unfold is_u64. lia. Qed.

Lemma pi_seed2_u64 : is_u64 0x452821E638D01377.
Proof. unfold is_u64. lia. Qed.

Lemma init_operand1_u64 len seed :
  is_u64 len ->
  is_u64 (Z.lxor (Z.lxor 0x452821E638D01377 len) (Z.land seed A5HASH_VAL10)).
Proof.
  intros Hl. apply lxor_u64.
  - apply lxor_u64; [exact pi_seed2_u64 | exact Hl].
  - apply land_u64_r, val10_u64.
Qed.

Lemma init_operand2_u64 len seed :
  is_u64 len ->
  is_u64 (Z.lxor (Z.lxor 0x243F6A8885A308D3 len) (Z.land seed A5HASH_VAL01)).
Proof.
  intros Hl. apply lxor_u64.
  - apply lxor_u64; [exact pi_seed1_u64 | exact Hl].
  - apply land_u64_r, val01_u64.
Qed.

Lemma a5hash_init_spec path len seed :
  is_u64 len -> a5hash_init path len seed = spec_init len seed.
Proof.
  intros Hl. unfold a5hash_init, spec_init.
  rewrite a5hash_umul128_exact.
  - unfold A5HASH_VAL10, A5HASH_VAL01. reflexivity.
  - apply init_operand1_u64, Hl.
  - apply init_operand2_u64, Hl.
Qed.
Lemma spec_init_proj_u64 len seed :
  is_u64 len ->
  is_u64 (fst (fst (spec_init len seed))) /\
  is_u64 (snd (fst (spec_init len seed))) /\
  is_u64 (snd (spec_init len seed)).
Proof.
  intros Hl. unfold spec_init, exact_product.
  pose proof (init_operand1_u64 len seed Hl) as H1.
  pose proof (init_operand2_u64 len seed Hl) as H2.
  unfold A5HASH_VAL10, A5HASH_VAL01 in H1, H2.
  pose proof (high_word_range _ _ H1 H2) as E2.
  cbv beta iota delta [fst snd].
  split; [|split].
  - apply u64_range.
  - exact E2.
  - apply lxor_u64.
    + exact val10_u64.
    + exact E2.
Qed.

Lemma spec_init_u64 len seed s1 s2 v10 :
  is_u64 len -> spec_init len seed = (s1, s2, v10) ->
  is_u64 s1 /\ is_u64 s2 /\ is_u64 v10.
Proof.
  intros Hl E. pose proof (spec_init_proj_u64 len seed Hl) as P.
  rewrite E in P. exact P.
Qed.

Lemma a5hash_final_spec path s1 s2 v01 a b :
  is_u64 s1 -> is_u64 s2 -> is_u64 v01 -> is_u64 a -> is_u64 b ->
  a5hash_final path s1 s2 v01 a b = spec_final s1 s2 v01 a b.
Proof.
  intros H1 H2 Hv Ha Hb. unfold a5hash_final, spec_final.
  rewrite a5hash_umul128_exact by (apply lxor_u64; assumption).
  pose proof (high_word_range _ _ (lxor_u64 _ _ H1 Ha) (lxor_u64 _ _ H2 Hb))
    as E2.
  pose proof (u64_range (Z.lxor s1 a * Z.lxor s2 b)) as E1.
  unfold exact_product at 1 2. cbv beta iota.
  rewrite a5hash_umul128_exact; [reflexivity | | exact E2].
  apply lxor_u64; assumption.
Qed.

(** ** The branch of at most three bytes *)

Lemma spec_load_1 buf i :
  spec_load 1 buf i = byte_val (nth (Z.to_nat i) buf x00).
Proof. cbn [spec_load]. lia. Qed.

Lemma lor_byte_shift a m n :
  0 <= n <= 56 -> 0 <= a < 2 ^ n -> 0 <= m < 256 ->
  Z.lor a (u64 (Z.shiftl m n)) = a + m * 2 ^ n.
Proof.
  intros Hn Ha Hm. rewrite shiftl_byte_u64 by assumption.
  rewrite <- Z.shiftl_mul_pow2 by lia.
  rewrite lor_shiftl_add by lia. rewrite Z.shiftl_mul_pow2 by lia.
  reflexivity.
Qed.

Lemma a5hash_short_ok Msg :
  (length Msg <= 3)%nat ->
  a5hash_short 0 (Z.of_nat (length Msg)) Msg =
  Some ((spec_short_a Msg, 0), byte_loads (length Msg)).
Proof.
  intros Hlen.
  destruct Msg as [|m0 [|m1 [|m2 [|m3 rest]]]];
    [ | | | | simpl in Hlen; lia ]; unfold a5hash_short.
  - reflexivity.
  - change (negb (Z.of_nat (length [m0]) =? 0)) with true.
    change (negb (Z.of_nat (length [m0]) =? 1)) with false.
    cbv iota.
    erewrite bind_ok by (apply msg_index_ok; simpl; lia).
    rewrite spec_load_1. reflexivity.
  - change (negb (Z.of_nat (length [m0; m1]) =? 0)) with true.
    change (negb (Z.of_nat (length [m0; m1]) =? 1)) with true.
    change (negb (Z.of_nat (length [m0; m1]) =? 2)) with false.
    cbv iota.
    erewrite bind_ok by (apply msg_index_ok; simpl; lia).
    erewrite bind_ok by (apply msg_index_ok; simpl; lia).
    rewrite !spec_load_1.
    change (nth (Z.to_nat 0) [m0; m1] x00) with m0.
    change (nth (Z.to_nat 1) [m0; m1] x00) with m1.
    pose proof (byte_val_range m0). pose proof (byte_val_range m1).
    rewrite lor_byte_shift by lia. reflexivity.
  - change (negb (Z.of_nat (length [m0; m1; m2]) =? 0)) with true.
    change (negb (Z.of_nat (length [m0; m1; m2]) =? 1)) with true.
    change (negb (Z.of_nat (length [m0; m1; m2]) =? 2)) with true.
    cbv iota.
    erewrite bind_ok by (apply msg_index_ok; simpl; lia).
    erewrite bind_ok by (apply msg_index_ok; simpl; lia).
    erewrite bind_ok by (apply msg_index_ok; simpl; lia).
    rewrite !spec_load_1.
    change (nth (Z.to_nat 0) [m0; m1; m2] x00) with m0.
    change (nth (Z.to_nat 1) [m0; m1; m2] x00) with m1.
    change (nth (Z.to_nat 2) [m0; m1; m2] x00) with m2.
    pose proof (byte_val_range m0). pose proof (byte_val_range m1).
    pose proof (byte_val_range m2).
    rewrite (lor_byte_shift (byte_val m0)) by lia.
    rewrite lor_byte_shift by lia. reflexivity.
Qed.

Lemma spec_short_a_u64 Msg : is_u64 (spec_short_a Msg).
Proof.
  unfold is_u64, spec_short_a.
  destruct Msg as [|m0 [|m1 [|m2 rest]]]; [lia | | |];
    pose proof (byte_val_range m0); try pose proof (byte_val_range m1);
    try pose proof (byte_val_range m2); lia.
Qed.

Lemma zero_u64 : is_u64 0.
Proof. unfold is_u64. lia. Qed.

Lemma small_len_u64 len : 0 <= len <= 16 -> is_u64 len.
Proof. unfold is_u64. lia. Qed.

Lemma ingest_short path Msg s1 s2 v01 v10 :
  (length Msg <= 3)%nat ->
  a5hash_ingest path 0 (Z.of_nat (length Msg)) s1 s2 v01 v10 Msg =
  Some ((spec_short_a Msg, 0, s1, s2, v01), byte_loads (length Msg)).
Proof.
  intros Hlen. unfold a5hash_ingest.
  destruct (Z.ltb_spec (Z.of_nat (length Msg)) 17); [|lia].
  destruct (Z.ltb_spec 3 (Z.of_nat (length Msg))); [lia|].
  erewrite bind_ok by (apply a5hash_short_ok; exact Hlen).
  unfold ret. rewrite app_nil_r. reflexivity.
Qed.

Lemma a5hash_short_run path (Msg : list byte) (seed : Z) :
  (length Msg <= 3)%nat ->
  a5hash path Msg (Z.of_nat (length Msg)) seed =
  Some (spec_short_digest Msg seed, byte_loads (length Msg)).
Proof.
  intros Hlen. unfold a5hash, a5hash_run, spec_short_digest.
  assert (Hl : is_u64 (Z.of_nat (length Msg))) by (apply small_len_u64; lia).
  rewrite a5hash_init_spec by exact Hl.
  destruct (spec_init (Z.of_nat (length Msg)) seed) as [[s1 s2] v10] eqn:E.
  destruct (spec_init_u64 _ _ _ _ _ Hl E) as (R1 & R2 & R3).
  erewrite bind_ok by (apply ingest_short; exact Hlen).
  unfold ret. rewrite app_nil_r.
  rewrite a5hash_final_spec;
    auto using val01_u64, spec_short_a_u64, zero_u64.
Qed.

(** C3. For a message of 0, 1, 2 or 3 bytes and any seed, [a5hash] returns
    the two-step finalization applied to the state left by the
    initialization, with [val01] still [0x5555555555555555], [b = 0] and [a]
    built from the bytes present: byte 0 in bits 0-7, byte 1 in bits 8-15,
    byte 2 in bits 16-23 ([a = 0] for the empty message); it reads each of
    these bytes once and nothing else. *)
Theorem a5hash_short_as_specified path (Msg : list byte) (seed : Z) :
  (length Msg <= 3)%nat ->
  a5hash path Msg (Z.of_nat (length Msg)) seed =
  Some (spec_short_digest Msg seed, byte_loads (length Msg)).
Proof. apply a5hash_short_run. Qed.

Lemma a5hash_short_as_specified_witness :
  (length [x61; x62; x63] <= 3)%nat /\
  a5hash Portable [x61; x62; x63] (Z.of_nat (length [x61; x62; x63])) 0 =
  Some (spec_short_digest [x61; x62; x63] 0,
        byte_loads (length [x61; x62; x63])).
Proof.
  split; [simpl; lia|].
  apply (a5hash_short_as_specified Portable [x61; x62; x63] 0). simpl. lia.
Defined.

(** ** The branch of 4 to 16 bytes *)

(** Linear arithmetic with division and remainder by constants. *)
Ltac div_lia := Z.div_mod_to_equations; lia.

Lemma a5hash_mo_div len : 0 <= len -> a5hash_mo len = len / 8.
Proof.
  intros H. unfold a5hash_mo. rewrite Z.shiftr_div_pow2 by lia.
  reflexivity.
Qed.

Lemma a5hash_mid_ok Msg :
  4 <= Z.of_nat (length Msg) <= 16 ->
  a5hash_mid 0 (Z.of_nat (length Msg)) Msg =
  Some ((spec_mid_a Msg, spec_mid_b Msg),
        spec_mid_windows (Z.of_nat (length Msg))).
Proof.
  intros Hlen. unfold a5hash_mid, spec_mid_a, spec_mid_b, spec_mid_windows.
  rewrite a5hash_mo_div by lia.
  remember (Z.of_nat (length Msg)) as len eqn:Elen.
  unfold usize. rewrite (Z.mod_small (len / 8 * 4)) by div_lia.
  replace (0 + len - 4) with (len - 4) by lia.
  replace (0 + len / 8 * 4) with (len / 8 * 4) by lia.
  replace (4 * (len / 8)) with (len / 8 * 4) by lia.
  erewrite bind_ok by (apply a5hash_lu32_ok; try rewrite <- Elen; div_lia).
  erewrite bind_ok by (apply a5hash_lu32_ok; try rewrite <- Elen; div_lia).
  erewrite bind_ok by (apply a5hash_lu32_ok; try rewrite <- Elen; div_lia).
  erewrite bind_ok by (apply a5hash_lu32_ok; try rewrite <- Elen; div_lia).
  unfold ret. rewrite !shiftl32_u64 by apply spec_load4_u32.
  reflexivity.
Qed.

Lemma spec_mid_a_u64 Msg : is_u64 (spec_mid_a Msg).
Proof.
  unfold spec_mid_a. apply lor_u64.
  - rewrite <- shiftl32_u64 by apply spec_load4_u32. apply u64_range.
  - pose proof (spec_load4_u32 Msg (Z.of_nat (length Msg) - 4)).
    unfold is_u32, is_u64 in *. lia.
Qed.

Lemma spec_mid_b_u64 Msg : is_u64 (spec_mid_b Msg).
Proof.
  unfold spec_mid_b. apply lor_u64.
  - rewrite <- shiftl32_u64 by apply spec_load4_u32. apply u64_range.
  - match goal with |- is_u64 (spec_load 4 ?m ?o) =>
      pose proof (spec_load4_u32 m o) end.
    unfold is_u32, is_u64 in *. lia.
Qed.

Lemma ingest_mid path Msg s1 s2 v01 v10 :
  4 <= Z.of_nat (length Msg) <= 16 ->
  a5hash_ingest path 0 (Z.of_nat (length Msg)) s1 s2 v01 v10 Msg =
  Some ((spec_mid_a Msg, spec_mid_b Msg, s1, s2, v01),
        spec_mid_windows (Z.of_nat (length Msg))).
Proof.
  intros Hlen. unfold a5hash_ingest.
  destruct (Z.ltb_spec (Z.of_nat (length Msg)) 17); [|lia].
  destruct (Z.ltb_spec 3 (Z.of_nat (length Msg))); [|lia].
  erewrite bind_ok by (apply a5hash_mid_ok; exact Hlen).
  unfold ret. rewrite app_nil_r. reflexivity.
Qed.

Lemma a5hash_mid_run path Msg seed :
  4 <= Z.of_nat (length Msg) <= 16 ->
  a5hash path Msg (Z.of_nat (length Msg)) seed =
  Some (spec_mid_digest Msg seed, spec_mid_windows (Z.of_nat (length Msg))).
Proof.
  intros Hlen. unfold a5hash, a5hash_run, spec_mid_digest.
  assert (Hl : is_u64 (Z.of_nat (length Msg))) by (apply small_len_u64; lia).
  rewrite a5hash_init_spec by exact Hl.
  destruct (spec_init (Z.of_nat (length Msg)) seed) as [[s1 s2] v10] eqn:E.
  destruct (spec_init_u64 _ _ _ _ _ Hl E) as (R1 & R2 & R3).
  erewrite bind_ok by (apply ingest_mid; exact Hlen).
  unfold ret. rewrite app_nil_r.
  rewrite a5hash_final_spec;
    auto using val01_u64, spec_mid_a_u64, spec_mid_b_u64.
Qed.

(** C4. For a message of 4 to 16 bytes, the branch computes
    [a = load4(0) << 32 | load4(length - 4)] and
    [b = load4(mo * 4) << 32 | load4(length - 4 - mo * 4)] with
    [mo = length / 8], and [a5hash] returns the finalization of the
    initialized state with exactly these [a] and [b]. *)
Theorem a5hash_mid_a_b_as_specified path (Msg : list byte) (seed : Z) :
  4 <= Z.of_nat (length Msg) <= 16 ->
  a5hash_mid 0 (Z.of_nat (length Msg)) Msg =
    Some ((spec_mid_a Msg, spec_mid_b Msg),
          spec_mid_windows (Z.of_nat (length Msg)))
  /\ a5hash path Msg (Z.of_nat (length Msg)) seed =
    Some (spec_mid_digest Msg seed, spec_mid_windows (Z.of_nat (length Msg))).
Proof.
  intros Hlen. split.
  - apply a5hash_mid_ok, Hlen.
  - apply a5hash_mid_run, Hlen.
Qed.

Lemma a5hash_mid_a_b_as_specified_witness :
  4 <= Z.of_nat (length [x01; x02; x03; x04; x05; x06; x07; x08; x09]) <= 16
  /\ a5hash_mid 0 9 [x01; x02; x03; x04; x05; x06; x07; x08; x09] =
    Some ((spec_mid_a [x01; x02; x03; x04; x05; x06; x07; x08; x09],
           spec_mid_b [x01; x02; x03; x04; x05; x06; x07; x08; x09]),
          spec_mid_windows 9)
  /\ a5hash Int128 [x01; x02; x03; x04; x05; x06; x07; x08; x09] 9 7 =
    Some (spec_mid_digest [x01; x02; x03; x04; x05; x06; x07; x08; x09] 7,
          spec_mid_windows 9).
Proof.
  split; [simpl; lia|].
  apply (a5hash_mid_a_b_as_specified Int128
           [x01; x02; x03; x04; x05; x06; x07; x08; x09] 7).
  simpl. lia.
Defined.

(** C5, as stated, fails: at length 16 the selector [mo = MsgLen >> 3] is 2,
    so "only the values 0 or 1 on [4,16]" does not hold. *)
Lemma a5hash_mo_not_only_0_or_1 :
  ~ (forall len : Z, 4 <= len <= 16 -> a5hash_mo len = 0 \/ a5hash_mo len = 1).
Proof.
  intros H. destruct (H 16 ltac:(lia)) as [E|E];
    vm_compute in E; discriminate E.
Qed.

(** C5, amended. For a length in [4,16] the selector [mo = length / 8] is
    0 for lengths 4..7, 1 for lengths 8..15 and 2 for length 16; the two
    middle windows it selects stay inside the message. *)
Theorem a5hash_mo_values (len : Z) :
  4 <= len <= 16 ->
  a5hash_mo len = len / 8
  /\ a5hash_mo len = (if len <? 8 then 0 else if len <? 16 then 1 else 2)
  /\ 0 <= a5hash_mo len * 4
  /\ a5hash_mo len * 4 + 4 <= len
  /\ 0 <= len - 4 - a5hash_mo len * 4.
Proof.
  intros H. rewrite a5hash_mo_div by lia.
  destruct (Z.ltb_spec len 8); [|destruct (Z.ltb_spec len 16)];
    repeat split; div_lia.
Qed.

Lemma a5hash_mo_values_witness :
  4 <= 16 <= 16
  /\ a5hash_mo 16 = 16 / 8
  /\ a5hash_mo 16 = (if 16 <? 8 then 0 else if 16 <? 16 then 1 else 2)
  /\ 0 <= a5hash_mo 16 * 4
  /\ a5hash_mo 16 * 4 + 4 <= 16
  /\ 0 <= 16 - 4 - a5hash_mo 16 * 4.
Proof.
  split; [lia|]. apply (a5hash_mo_values 16). lia.
Defined.

(** *** The message can be read back from [a] and [b] *)

Lemma byte_val_inj x y : byte_val x = byte_val y -> x = y.
Proof.
  unfold byte_val. intros E. apply N2Z.inj in E.
  pose proof (Byte.of_to_N x) as Hx. rewrite E, Byte.of_to_N in Hx.
  inversion Hx. reflexivity.
Qed.

Lemma spec_load_inj n Msg Msg' :
  forall off, 0 <= off ->
    spec_load n Msg off = spec_load n Msg' off ->
    forall k, off <= k < off + Z.of_nat n ->
      nth (Z.to_nat k) Msg x00 = nth (Z.to_nat k) Msg' x00.
Proof.
  induction n as [|n IH]; intros off Hoff E k Hk.
  - simpl in Hk. lia.
  - cbn [spec_load] in E.
    pose proof (byte_val_range (nth (Z.to_nat off) Msg x00)).
    pose proof (byte_val_range (nth (Z.to_nat off) Msg' x00)).
    destruct (Z.eq_dec k off) as [->|Hne].
    + apply byte_val_inj. lia.
    + apply (IH (off + 1)); lia.
Qed.

Lemma shifted_pair_inj hi lo hi' lo' :
  is_u32 lo -> is_u32 lo' ->
  Z.lor (Z.shiftl hi 32) lo = Z.lor (Z.shiftl hi' 32) lo' ->
  hi = hi' /\ lo = lo'.
Proof.
  intros Hl Hl'. rewrite !shiftl_lor_add by assumption.
  unfold is_u32 in *. lia.
Qed.

(** Two messages of one length between 4 and 16 with the same [a] and the
    same [b] are the same message. *)
Lemma spec_mid_a_b_inj (Msg Msg' : list byte) :
  length Msg' = length Msg -> 4 <= Z.of_nat (length Msg) <= 16 ->
  spec_mid_a Msg' = spec_mid_a Msg -> spec_mid_b Msg' = spec_mid_b Msg ->
  Msg' = Msg.
Proof.
  intros Hsame Hlen Ea Eb. unfold spec_mid_a, spec_mid_b in Ea, Eb.
  rewrite Hsame in Ea, Eb.
  remember (Z.of_nat (length Msg)) as len eqn:Elen.
  apply shifted_pair_inj in Ea; try apply spec_load4_u32.
  apply shifted_pair_inj in Eb; try apply spec_load4_u32.
  destruct Ea as [A1 A2], Eb as [B1 B2].
  apply (nth_ext _ _ x00 x00); [exact Hsame|].
  intros n Hn. rewrite <- (Nat2Z.id n).
  assert (C : 0 <= Z.of_nat n < 4 \/ len - 4 <= Z.of_nat n < len - 4 + 4 \/
              len / 8 * 4 <= Z.of_nat n < len / 8 * 4 + 4 \/
              len - 4 - len / 8 * 4 <= Z.of_nat n < len - 4 - len / 8 * 4 + 4)
    by div_lia.
  destruct C as [C|[C|[C|C]]].
  - apply (spec_load_inj 4 Msg' Msg 0); [lia | exact A1 | simpl; lia].
  - apply (spec_load_inj 4 Msg' Msg (len - 4)); [lia | exact A2 | simpl; lia].
  - apply (spec_load_inj 4 Msg' Msg (len / 8 * 4));
      [div_lia | exact B1 | simpl; lia].
  - apply (spec_load_inj 4 Msg' Msg (len - 4 - len / 8 * 4));
      [div_lia | exact B2 | simpl; lia].
Qed.

(** C6. For a message of 4 to 16 bytes, [a5hash] reads exactly the four
    4-byte windows at offsets [0], [length - 4], [4 * mo] and
    [length - 4 - 4 * mo] with [mo = length / 8], and every byte index
    [0 <= i < length] lies in at least one of them; so every byte bears on
    [a] or [b]: a message of the same length with the same [a] and [b] is
    the same message. *)
Theorem a5hash_mid_windows_cover path (Msg : list byte) (seed : Z) :
  4 <= Z.of_nat (length Msg) <= 16 ->
  a5hash path Msg (Z.of_nat (length Msg)) seed =
    Some (spec_mid_digest Msg seed, spec_mid_windows (Z.of_nat (length Msg)))
  /\ (forall i : Z, 0 <= i < Z.of_nat (length Msg) ->
       Exists (covers i) (spec_mid_windows (Z.of_nat (length Msg))))
  /\ (forall Msg' : list byte, length Msg' = length Msg ->
       spec_mid_a Msg' = spec_mid_a Msg -> spec_mid_b Msg' = spec_mid_b Msg ->
       Msg' = Msg).
Proof.
  intros Hlen. split; [apply a5hash_mid_run, Hlen|]. split.
  - intros i Hi. unfold spec_mid_windows.
    remember (Z.of_nat (length Msg)) as len eqn:Elen.
    assert (C : 0 <= i < 4 \/ len - 4 <= i < len \/
                4 * (len / 8) <= i < 4 * (len / 8) + 4 \/
                len - 4 - 4 * (len / 8) <= i < len - 4 * (len / 8))
      by div_lia.
    destruct C as [C|[C|[C|C]]].
    + apply Exists_cons_hd. unfold covers; cbn [acc_off acc_width]; lia.
    + apply Exists_cons_tl, Exists_cons_hd.
      unfold covers; cbn [acc_off acc_width]; lia.
    + apply Exists_cons_tl, Exists_cons_tl, Exists_cons_hd.
      unfold covers; cbn [acc_off acc_width]; lia.
    + apply Exists_cons_tl, Exists_cons_tl, Exists_cons_tl, Exists_cons_hd.
      unfold covers; cbn [acc_off acc_width]; lia.
  - intros Msg' Hsame Ea Eb. apply spec_mid_a_b_inj; assumption.
Qed.

Lemma a5hash_mid_windows_cover_witness :
  4 <= Z.of_nat (length [x0a; x0b; x0c; x0d; x0e]) <= 16
  /\ a5hash Portable [x0a; x0b; x0c; x0d; x0e] 5 1 =
    Some (spec_mid_digest [x0a; x0b; x0c; x0d; x0e] 1, spec_mid_windows 5)
  /\ (forall i : Z, 0 <= i < 5 -> Exists (covers i) (spec_mid_windows 5))
  /\ (forall Msg' : list byte,
       length Msg' = length [x0a; x0b; x0c; x0d; x0e] ->
       spec_mid_a Msg' = spec_mid_a [x0a; x0b; x0c; x0d; x0e] ->
       spec_mid_b Msg' = spec_mid_b [x0a; x0b; x0c; x0d; x0e] ->
       Msg' = [x0a; x0b; x0c; x0d; x0e]).
Proof.
  split; [simpl; lia|].
  apply (a5hash_mid_windows_cover Portable [x0a; x0b; x0c; x0d; x0e] 1).
  simpl. lia.
Defined.

(** ** The streaming branch *)

Lemma spec_stream_loop_done fuel Msg pos rem s1 s2 v01 v10 :
  rem <= 16 -> spec_stream_loop fuel Msg pos rem s1 s2 v01 v10 = (s1, s2).
Proof.
  intros H. destruct fuel as [|fuel]; [reflexivity|].
  cbn [spec_stream_loop]. destruct (Z.ltb_spec 16 rem); [lia|reflexivity].
Qed.

(** The rounds do not depend on the fuel once it covers the bytes left. *)
Lemma spec_stream_loop_fuel Msg v01 v10 (f1 : nat) :
  forall (f2 : nat) pos rem s1 s2,
    rem <= Z.of_nat f1 -> rem <= Z.of_nat f2 ->
    spec_stream_loop f1 Msg pos rem s1 s2 v01 v10 =
    spec_stream_loop f2 Msg pos rem s1 s2 v01 v10.
Proof.
  induction f1 as [|f1 IH]; intros f2 pos rem s1 s2 H1 H2.
  - rewrite !spec_stream_loop_done by (simpl in H1; lia). reflexivity.
  - destruct f2 as [|f2].
    + rewrite !spec_stream_loop_done by (simpl in H2; lia). reflexivity.
    + cbn [spec_stream_loop]. destruct (Z.ltb_spec 16 rem); [|reflexivity].
      destruct (exact_product _ _) as [lo hi]. apply IH; lia.
Qed.

Lemma spec_stream_loads_done fuel pos rem :
  rem <= 16 -> spec_stream_loads fuel pos rem = [].
Proof.
  intros H. destruct fuel as [|fuel]; [reflexivity|].
  cbn [spec_stream_loads]. destruct (Z.ltb_spec 16 rem); [lia|reflexivity].
Qed.

(** The [do ... while] loop, entered with more than 16 bytes to go, runs
    the rounds of the specification's [while] loop and stops with 1 to 16
    bytes left. *)
Lemma a5hash_loop_spec path Msg v01 v10 :
  Z.of_nat (length Msg) < 2 ^ 64 ->
  forall fuel pos rem s1 s2,
    0 <= pos -> pos + rem = Z.of_nat (length Msg) -> 16 < rem ->
    rem <= Z.of_nat fuel -> is_u64 s1 -> is_u64 s2 ->
    exists pos' rem',
      a5hash_loop path fuel pos rem s1 s2 v01 v10 Msg =
        Some ((pos', rem',
               fst (spec_stream_loop fuel Msg pos rem s1 s2 v01 v10),
               snd (spec_stream_loop fuel Msg pos rem s1 s2 v01 v10)),
              spec_stream_loads fuel pos rem)
      /\ pos' + rem' = Z.of_nat (length Msg) /\ 1 <= rem' <= 16
      /\ is_u64 (fst (spec_stream_loop fuel Msg pos rem s1 s2 v01 v10))
      /\ is_u64 (snd (spec_stream_loop fuel Msg pos rem s1 s2 v01 v10)).
Proof.
  intros Hmax. induction fuel as [|fuel IH]; intros pos rem s1 s2 Hp Hsum Hr Hf H1 H2.
  - simpl in Hf. lia.
  - cbn [a5hash_loop spec_stream_loop spec_stream_loads].
    destruct (Z.ltb_spec 16 rem) as [_|]; [|lia].
    erewrite bind_ok by (apply a5hash_lu64_ok; lia).
    erewrite bind_ok by (apply a5hash_lu64_ok; lia).
    rewrite a5hash_umul128_exact
      by (apply lxor_u64; [assumption | apply spec_load8_u64]).
    destruct (exact_product (Z.lxor s1 (spec_load 8 Msg pos))
                (Z.lxor s2 (spec_load 8 Msg (pos + 8)))) as [lo hi].
    unfold usize. rewrite (Z.mod_small (rem - 16)) by lia.
    fold (u64 (lo + v01)). fold (u64 (hi + v10)).
    destruct (Z.ltb_spec 16 (rem - 16)) as [More|Done].
    + destruct (IH (pos + 16) (rem - 16) (u64 (lo + v01)) (u64 (hi + v10)))
        as (pos' & rem' & E & Hs & Hr' & R1 & R2);
        try lia; try apply u64_range.
      exists pos', rem'. rewrite E. cbn [app]. auto.
    + exists (pos + 16), (rem - 16).
      rewrite spec_stream_loop_done, spec_stream_loads_done by lia.
      unfold ret. cbn [fst snd app].
      repeat split; try lia; apply u64_range.
Qed.

Lemma spec_stream_loads_length fuel pos rem :
  1 <= rem <= Z.of_nat fuel ->
  Z.of_nat (length (spec_stream_loads fuel pos rem)) = 2 * ((rem - 1) / 16).
Proof.
  revert pos rem. induction fuel as [|fuel IH]; intros pos rem H.
  - simpl in H. lia.
  - cbn [spec_stream_loads]. destruct (Z.ltb_spec 16 rem) as [More|Done].
    + cbn [length]. rewrite !Nat2Z.inj_succ, IH by lia. div_lia.
    + cbn [length]. div_lia.
Qed.

Lemma ingest_stream path Msg s1 s2 v10 :
  16 < Z.of_nat (length Msg) < 2 ^ 64 -> is_u64 s1 -> is_u64 s2 ->
  let len := Z.of_nat (length Msg) in
  let v01 := Z.lxor A5HASH_VAL01 s1 in
  let r := spec_stream_loop (length Msg) Msg 0 len s1 s2 v01 v10 in
  a5hash_ingest path 0 len s1 s2 A5HASH_VAL01 v10 Msg =
    Some ((spec_load 8 Msg (len - 16), spec_load 8 Msg (len - 8),
           fst r, snd r, v01),
          spec_stream_loads (length Msg) 0 len ++ spec_tail_loads len)
  /\ is_u64 (fst r) /\ is_u64 (snd r).
Proof.
  intros Hlen H1 H2. cbv zeta.
  destruct (a5hash_loop_spec path Msg (Z.lxor A5HASH_VAL01 s1) v10
              (proj2 Hlen) (length Msg) 0 (Z.of_nat (length Msg)) s1 s2)
    as (pos' & rem' & E & Hs & Hr & R1 & R2);
    try assumption; try lia.
  split; [|split; assumption].
  unfold a5hash_ingest.
  destruct (Z.ltb_spec (Z.of_nat (length Msg)) 17) as [|_]; [lia|].
  unfold a5hash_stream. rewrite Nat2Z.id.
  erewrite bind_ok by exact E. cbv beta iota.
  replace (pos' + rem' - 16) with (Z.of_nat (length Msg) - 16) by lia.
  replace (pos' + rem' - 8) with (Z.of_nat (length Msg) - 8) by lia.
  erewrite bind_ok by (apply a5hash_lu64_ok; lia).
  erewrite bind_ok by (apply a5hash_lu64_ok; lia).
  unfold ret, spec_tail_loads. cbn [app]. reflexivity.
Qed.

Lemma a5hash_stream_run path Msg seed :
  16 < Z.of_nat (length Msg) < 2 ^ 64 ->
  a5hash path Msg (Z.of_nat (length Msg)) seed =
  Some (spec_stream_digest Msg seed,
        spec_stream_loads (length Msg) 0 (Z.of_nat (length Msg))
          ++ spec_tail_loads (Z.of_nat (length Msg))).
Proof.
  intros Hlen. unfold a5hash, a5hash_run, spec_stream_digest.
  assert (Hl : is_u64 (Z.of_nat (length Msg))) by (unfold is_u64; lia).
  rewrite a5hash_init_spec by exact Hl.
  destruct (spec_init (Z.of_nat (length Msg)) seed) as [[s1 s2] v10] eqn:E.
  destruct (spec_init_u64 _ _ _ _ _ Hl E) as (R1 & R2 & R3).
  destruct (ingest_stream path Msg s1 s2 v10 Hlen R1 R2) as (I & Q1 & Q2).
  cbv zeta in I, Q1, Q2.
  erewrite bind_ok by exact I. cbv beta iota.
  unfold ret. rewrite app_nil_r.
  change 0x5555555555555555 with A5HASH_VAL01.
  destruct (spec_stream_loop (length Msg) Msg 0 (Z.of_nat (length Msg)) s1 s2
              (Z.lxor A5HASH_VAL01 s1) v10) as [S1 S2].
  cbn [fst snd] in *.
  rewrite a5hash_final_spec;
    auto using lxor_u64, val01_u64, spec_load8_u64.
Qed.

(** C2. For a message longer than 16 bytes, [a5hash] sets [val01 ^= Seed1]
    and then runs the rounds of the specification -- while strictly more
    than 16 bytes remain: multiply [Seed1 ^ load8(Msg)] by
    [Seed2 ^ load8(Msg + 8)], advance by 16, add [val01] and [val10] modulo
    2^64 -- which makes [(length - 1) / 16] rounds, so that a remainder of
    exactly 16 bytes ends the loop; [a] and [b] are then the 8-byte windows
    at offsets [length - 16] and [length - 8] of the message. *)
Theorem a5hash_stream_as_specified path (Msg : list byte) (seed : Z) :
  16 < Z.of_nat (length Msg) < 2 ^ 64 ->
  a5hash path Msg (Z.of_nat (length Msg)) seed =
    Some (spec_stream_digest Msg seed,
          spec_stream_loads (length Msg) 0 (Z.of_nat (length Msg))
            ++ spec_tail_loads (Z.of_nat (length Msg)))
  /\ Z.of_nat (length (spec_stream_loads (length Msg) 0
                         (Z.of_nat (length Msg))))
     = 2 * ((Z.of_nat (length Msg) - 1) / 16).
Proof.
  intros Hlen. split.
  - apply a5hash_stream_run, Hlen.
  - apply spec_stream_loads_length. lia.
Qed.

Lemma a5hash_stream_as_specified_witness :
  16 < Z.of_nat (length (repeat x2a 32)) < 2 ^ 64
  /\ a5hash Portable (repeat x2a 32) (Z.of_nat (length (repeat x2a 32))) 3 =
    Some (spec_stream_digest (repeat x2a 32) 3,
          spec_stream_loads (length (repeat x2a 32)) 0
            (Z.of_nat (length (repeat x2a 32)))
            ++ spec_tail_loads (Z.of_nat (length (repeat x2a 32))))
  /\ Z.of_nat (length (spec_stream_loads (length (repeat x2a 32)) 0
                         (Z.of_nat (length (repeat x2a 32)))))
     = 2 * ((Z.of_nat (length (repeat x2a 32)) - 1) / 16).
Proof.
  split; [rewrite repeat_length; lia|].
  apply (a5hash_stream_as_specified Portable (repeat x2a 32) 3).
  rewrite repeat_length. lia.
Defined.

(** With exactly 32 bytes the body runs once: after the first round 16
    bytes remain and the loop is left; the tail windows repeat bytes 16..31. *)
Example a5hash_32_bytes_one_round :
  option_map snd (a5hash Int128 (repeat x2a 32) 32 0) =
  Some [mk_access 0 8; mk_access 8 8; mk_access 16 8; mk_access 24 8].
Proof. vm_compute. reflexivity. Qed.

(** With 33 bytes it runs twice and the tail windows overlap the second
    round's bytes. *)
Example a5hash_33_bytes_two_rounds :
  option_map snd (a5hash Int128 (repeat x2a 33) 33 0) =
  Some [mk_access 0 8; mk_access 8 8; mk_access 16 8; mk_access 24 8;
        mk_access 17 8; mk_access 25 8].
Proof. vm_compute. reflexivity. Qed.

(** ** Every load stays inside the message *)

Lemma byte_loads_in_bounds n :
  (n <= 3)%nat -> Forall (in_bounds (Z.of_nat n)) (byte_loads n).
Proof.
  intros H. unfold byte_loads. apply Forall_forall. intros a Ha.
  apply in_map_iff in Ha. destruct Ha as (i & <- & Hi).
  apply in_seq in Hi. unfold in_bounds. cbn [acc_off acc_width]. lia.
Qed.

Lemma spec_mid_windows_in_bounds len :
  4 <= len <= 16 -> Forall (in_bounds len) (spec_mid_windows len).
Proof.
  intros H. unfold spec_mid_windows.
  repeat apply Forall_cons; try apply Forall_nil;
    unfold in_bounds; cbn [acc_off acc_width]; div_lia.
Qed.

Lemma spec_stream_loads_in_bounds len fuel :
  forall pos rem, 0 <= pos -> pos + rem = len ->
    Forall (in_bounds len) (spec_stream_loads fuel pos rem).
Proof.
  induction fuel as [|fuel IH]; intros pos rem Hp Hs.
  - apply Forall_nil.
  - cbn [spec_stream_loads]. destruct (Z.ltb_spec 16 rem).
    + repeat apply Forall_cons; try (apply IH; lia);
        unfold in_bounds; cbn [acc_off acc_width]; lia.
    + apply Forall_nil.
Qed.

Lemma spec_tail_loads_in_bounds len :
  16 <= len -> Forall (in_bounds len) (spec_tail_loads len).
Proof.
  intros H. unfold spec_tail_loads.
  repeat apply Forall_cons; try apply Forall_nil;
    unfold in_bounds; cbn [acc_off acc_width]; lia.
Qed.

(** With [MsgLen = 0] nothing is read, whatever the buffer is. *)
Lemma a5hash_empty path (buf : list byte) (seed : Z) :
  a5hash path buf 0 seed = Some (spec_short_digest [] seed, []).
Proof.
  unfold a5hash, a5hash_run, spec_short_digest.
  change (Z.of_nat (length (@nil byte))) with 0.
  rewrite a5hash_init_spec by exact zero_u64.
  destruct (spec_init 0 seed) as [[s1 s2] v10] eqn:E.
  destruct (spec_init_u64 _ _ _ _ _ zero_u64 E) as (R1 & R2 & R3).
  unfold a5hash_ingest, a5hash_short.
  change (0 <? 17) with true. change (3 <? 0) with false.
  change (negb (0 =? 0)) with false. cbv iota.
  unfold bind, ret. cbn [app].
  rewrite a5hash_final_spec;
    auto using val01_u64, zero_u64.
Qed.

(** C8. The message being a list of exactly [length] bytes and a load
    outside it a failure, [a5hash] succeeds for every length and seed, and
    each of its 1-, 4- and 8-byte loads lies within [0, length); with
    [length = 0] it makes no load and the digest is the same whatever the
    buffer, present or not. *)
Theorem a5hash_loads_within_message path (Msg : list byte) (seed : Z) :
  Z.of_nat (length Msg) < 2 ^ 64 ->
  (exists digest log,
      a5hash path Msg (Z.of_nat (length Msg)) seed = Some (digest, log)
      /\ Forall (in_bounds (Z.of_nat (length Msg))) log
      /\ (length Msg = 0%nat -> log = []))
  /\ (forall buf : list byte, a5hash path buf 0 seed = a5hash path [] 0 seed)
  /\ a5hash path [] 0 seed = Some (spec_short_digest [] seed, []).
Proof.
  intros Hmax. split; [|split].
  - destruct (Z_lt_le_dec 16 (Z.of_nat (length Msg))) as [Long|Short].
    + eexists. eexists. split; [apply a5hash_stream_run; lia|]. split.
      * apply Forall_app. split.
        -- apply spec_stream_loads_in_bounds; lia.
        -- apply spec_tail_loads_in_bounds; lia.
      * intros E. rewrite E in Long. simpl in Long. lia.
    + destruct (Z_lt_le_dec 3 (Z.of_nat (length Msg))) as [Mid|Tiny].
      * eexists. eexists. split; [apply a5hash_mid_run; lia|]. split.
        -- apply spec_mid_windows_in_bounds; lia.
        -- intros E. rewrite E in Mid. simpl in Mid. lia.
      * eexists. eexists. split; [apply a5hash_short_run; lia|]. split.
        -- apply byte_loads_in_bounds; lia.
        -- intros E. rewrite E. reflexivity.
  - intros buf. rewrite !a5hash_empty. reflexivity.
  - apply a5hash_empty.
Qed.

Lemma a5hash_loads_within_message_witness :
  Z.of_nat (length (repeat x07 40)) < 2 ^ 64
  /\ (exists digest log,
      a5hash Portable (repeat x07 40) (Z.of_nat (length (repeat x07 40))) 9
        = Some (digest, log)
      /\ Forall (in_bounds (Z.of_nat (length (repeat x07 40)))) log
      /\ (length (repeat x07 40) = 0%nat -> log = []))
  /\ (forall buf : list byte, a5hash Portable buf 0 9 = a5hash Portable [] 0 9)
  /\ a5hash Portable [] 0 9 = Some (spec_short_digest [] 9, []).
Proof.
  split; [rewrite repeat_length; lia|].
  apply (a5hash_loads_within_message Portable (repeat x07 40) 9).
  rewrite repeat_length. lia.
Defined.

(** ** [a5rand] *)

Lemma a5rand_exact path s1 s2 :
  a5rand path s1 s2 =
  (Z.lxor (fst (exact_product (u64 (s1 + A5HASH_VAL01))
                              (u64 (s2 + A5HASH_VAL10))))
          (snd (exact_product (u64 (s1 + A5HASH_VAL01))
                              (u64 (s2 + A5HASH_VAL10)))),
   exact_product (u64 (s1 + A5HASH_VAL01)) (u64 (s2 + A5HASH_VAL10))).
Proof.
  unfold a5rand. rewrite a5hash_umul128_exact by apply u64_range.
  unfold exact_product. reflexivity.
Qed.

(** C7. One call of [a5rand] in state [(s1, s2)] leaves as new state the
    low and high 64-bit halves of the product
    [(s1 + 0x5555555555555555) * (s2 + 0xAAAAAAAAAAAAAAAA)], the two sums
    taken modulo 2^64, and returns the XOR of the two new words; the new
    state is that of a single such step. *)
Theorem a5rand_one_step path (s1 s2 : Z) :
  let p := ((s1 + 0x5555555555555555) mod 2 ^ 64)
           * ((s2 + 0xAAAAAAAAAAAAAAAA) mod 2 ^ 64) in
  a5rand path s1 s2 = (Z.lxor (p mod 2 ^ 64) (p / 2 ^ 64),
                       (p mod 2 ^ 64, p / 2 ^ 64))
  /\ a5rand_next path (s1, s2) = (p mod 2 ^ 64, p / 2 ^ 64)
  /\ a5rand_output path (s1, s2) = Z.lxor (p mod 2 ^ 64) (p / 2 ^ 64)
  /\ a5rand_states path 1 (s1, s2) = (p mod 2 ^ 64, p / 2 ^ 64)
  /\ is_u64 (p mod 2 ^ 64) /\ is_u64 (p / 2 ^ 64).
Proof.
  intros p.
  assert (E : a5rand path s1 s2 = (Z.lxor (p mod 2 ^ 64) (p / 2 ^ 64),
                                   (p mod 2 ^ 64, p / 2 ^ 64))).
  { rewrite a5rand_exact. reflexivity. }
  split; [exact E|].
  unfold a5rand_states.
  change (N.iter 1 (a5rand_next path) (s1, s2))
    with (a5rand_next path (s1, s2)).
  unfold a5rand_next, a5rand_output. cbn [fst snd]. rewrite E. cbn [fst snd].
  repeat split; try reflexivity.
  - apply Z.mod_pos_bound. lia.
  - apply Z.mod_pos_bound. lia.
  - apply (high_word_range _ _ (u64_range _) (u64_range _)).
  - apply (high_word_range _ _ (u64_range _) (u64_range _)).
Qed.

Lemma exact_product_comm u v : exact_product u v = exact_product v u.
Proof. unfold exact_product. rewrite (Z.mul_comm u v). reflexivity. Qed.

Lemma swapped_operands s1 s2 :
  u64 (u64 (s2 + A5HASH_VAL01) + A5HASH_VAL01) = u64 (s2 + A5HASH_VAL10)
  /\ u64 (u64 (s1 - A5HASH_VAL01) + A5HASH_VAL10) = u64 (s1 + A5HASH_VAL01).
Proof.
  unfold u64. rewrite !Zplus_mod_idemp_l. split.
  - f_equal. unfold A5HASH_VAL01, A5HASH_VAL10. lia.
  - f_equal. unfold A5HASH_VAL01, A5HASH_VAL10. lia.
Qed.

Lemma a5rand_swap path s1 s2 :
  a5rand path (u64 (s2 + A5HASH_VAL01)) (u64 (s1 - A5HASH_VAL01)) =
  a5rand path s1 s2.
Proof.
  rewrite !a5rand_exact.
  destruct (swapped_operands s1 s2) as [E1 E2]. rewrite E1, E2.
  rewrite (exact_product_comm (u64 (s2 + A5HASH_VAL10))). reflexivity.
Qed.

(** The two states used below: [(0, 0)] and its mirror image. *)
Lemma mirror_of_zero path :
  a5rand path (u64 (0 + A5HASH_VAL01)) (u64 (0 - A5HASH_VAL01)) =
  a5rand path 0x5555555555555555 0xAAAAAAAAAAAAAAAB.
Proof. reflexivity. Qed.

(** C10. For every state [(s1, s2)], the state
    [(s2 + 0x5555555555555555, s1 - 0x5555555555555555)] (modulo 2^64) gives
    in one [a5rand] step the same returned value and the same successor
    state as [(s1, s2)]; the two states differ whenever
    [s1 <> s2 + 0x5555555555555555] (modulo 2^64), so the step is not
    injective on pairs of 64-bit words. *)
Theorem a5rand_not_injective path (s1 s2 : Z) :
  a5rand path (u64 (s2 + A5HASH_VAL01)) (u64 (s1 - A5HASH_VAL01)) =
    a5rand path s1 s2
  /\ (s1 <> u64 (s2 + A5HASH_VAL01) ->
      (u64 (s2 + A5HASH_VAL01), u64 (s1 - A5HASH_VAL01)) <> (s1, s2))
  /\ (exists s t : Z * Z,
        is_u64 (fst s) /\ is_u64 (snd s) /\ is_u64 (fst t) /\ is_u64 (snd t)
        /\ s <> t /\ a5rand_next path s = a5rand_next path t
        /\ a5rand_output path s = a5rand_output path t).
Proof.
  split; [apply a5rand_swap|]. split.
  - intros Hne E. apply Hne. apply (f_equal fst) in E. cbn [fst] in E.
    symmetry. exact E.
  - exists (0, 0), (0x5555555555555555, 0xAAAAAAAAAAAAAAAB).
    cbn [fst snd]. unfold is_u64.
    split; [lia|]. split; [lia|]. split; [lia|]. split; [lia|].
    split; [|split].
    + intros E. apply (f_equal fst) in E. cbn [fst] in E. discriminate E.
    + unfold a5rand_next. cbn [fst snd]. rewrite <- (a5rand_swap path 0 0).
      rewrite mirror_of_zero. reflexivity.
    + unfold a5rand_output. cbn [fst snd]. rewrite <- (a5rand_swap path 0 0).
      rewrite mirror_of_zero. reflexivity.
Qed.

Lemma a5rand_not_injective_witness :
  1 <> u64 (2 + A5HASH_VAL01)
  /\ a5rand Portable (u64 (2 + A5HASH_VAL01)) (u64 (1 - A5HASH_VAL01)) =
    a5rand Portable 1 2
  /\ (u64 (2 + A5HASH_VAL01), u64 (1 - A5HASH_VAL01)) <> (1, 2).
Proof.
  assert (H : 1 <> u64 (2 + A5HASH_VAL01)) by (vm_compute; discriminate).
  split; [exact H|].
  destruct (a5rand_not_injective Portable 1 2) as (E & D & _).
  split; [exact E | exact (D H)].
Defined.

(** * Further properties of the code *)

(** ** [a5hash_umul128] *)

Lemma a5hash_umul128_u64 path u v :
  is_u64 (fst (a5hash_umul128 path u v))
  /\ is_u64 (snd (a5hash_umul128 path u v)).
Proof.
  destruct path; cbn [a5hash_umul128];
    unfold umul128_msvc_arm64, umul128_msvc_amd64, umul128_int128,
      umul128_ibm_lp64, umul128_portable, intrinsic_umulh, intrinsic_mulhdu,
      intrinsic_umul128; cbn [fst snd]; split; apply u64_range.
Qed.

(** X1. On 64-bit operands the product does not depend on the order of the
    operands, on any path (the fallback treats them differently); a zero
    operand gives [(0, 0)], the operand 1 gives [(u, 0)], and the high word
    never exceeds [2^64 - 2]. *)
Theorem a5hash_umul128_algebra path (u v : Z) :
  is_u64 u -> is_u64 v ->
  a5hash_umul128 path u v = a5hash_umul128 path v u
  /\ a5hash_umul128 path u 0 = (0, 0)
  /\ a5hash_umul128 path u 1 = (u, 0)
  /\ snd (a5hash_umul128 path u v) <= 2 ^ 64 - 2.
Proof.
  intros Hu Hv.
  assert (H0 : is_u64 0) by (unfold is_u64; lia).
  assert (H1 : is_u64 1) by (unfold is_u64; lia).
  rewrite !a5hash_umul128_exact by assumption.
  split; [apply exact_product_comm|]. unfold exact_product. cbn [snd].
  split; [rewrite Z.mul_0_r; reflexivity|]. split.
  - rewrite Z.mul_1_r. rewrite (Z.mod_small u), (Z.div_small u) by exact Hu.
    reflexivity.
  - unfold is_u64 in Hu, Hv.
    assert (B : u * v <= (2 ^ 64 - 1) * (2 ^ 64 - 1)) by nia.
    apply (Z.div_le_mono _ _ (2 ^ 64)) in B; [|lia].
    replace ((2 ^ 64 - 1) * (2 ^ 64 - 1) / 2 ^ 64) with (2 ^ 64 - 2) in B
      by reflexivity.
    exact B.
Qed.

Lemma a5hash_umul128_algebra_witness :
  is_u64 (2 ^ 64 - 1) /\ is_u64 3
  /\ a5hash_umul128 Portable (2 ^ 64 - 1) 3
     = a5hash_umul128 Portable 3 (2 ^ 64 - 1)
  /\ a5hash_umul128 Portable (2 ^ 64 - 1) 0 = (0, 0)
  /\ a5hash_umul128 Portable (2 ^ 64 - 1) 1 = (2 ^ 64 - 1, 0)
  /\ snd (a5hash_umul128 Portable (2 ^ 64 - 1) 3) <= 2 ^ 64 - 2.
Proof.
  assert (H : is_u64 (2 ^ 64 - 1)) by (unfold is_u64; lia).
  assert (H3 : is_u64 3) by (unfold is_u64; lia).
  split; [exact H|]. split; [exact H3|].
  apply (a5hash_umul128_algebra Portable (2 ^ 64 - 1) 3); assumption.
Defined.

(** ** The loaders *)



(** ** The digest *)

Lemma a5hash_final_u64 path s1 s2 v01 a b :
  is_u64 (a5hash_final path s1 s2 v01 a b).
Proof.
  unfold a5hash_final.
  destruct (a5hash_umul128 path (Z.lxor s1 a) (Z.lxor s2 b)) as [lo hi].
  pose proof (a5hash_umul128_u64 path (Z.lxor lo v01) hi) as [R1 R2].
  destruct (a5hash_umul128 path (Z.lxor lo v01) hi) as [lo' hi'].
  cbn [fst snd] in R1, R2. apply lxor_u64; assumption.
Qed.

(** Whatever the buffer and the length passed, a digest that is returned
    is a 64-bit value. *)
Lemma a5hash_result_u64 path buf MsgLen seed :
  match a5hash path buf MsgLen seed with
  | Some (d, _) => is_u64 d
  | None => True
  end.
Proof.
  unfold a5hash, a5hash_run.
  destruct (a5hash_init path MsgLen seed) as [[s1 s2] v10].
  unfold bind.
  destruct (a5hash_ingest path 0 MsgLen s1 s2 A5HASH_VAL01 v10 buf)
    as [[[[[[a b] s1'] s2'] v01'] l]|]; [|exact I].
  unfold ret. apply a5hash_final_u64.
Qed.

(** The three forms of the digest, by length. *)
Lemma a5hash_succeeds path Msg seed :
  Z.of_nat (length Msg) < 2 ^ 64 ->
  exists d log,
    a5hash path Msg (Z.of_nat (length Msg)) seed = Some (d, log)
    /\ (forall q, a5hash q Msg (Z.of_nat (length Msg)) seed = Some (d, log)).
Proof.
  intros Hmax.
  destruct (Z_lt_le_dec 16 (Z.of_nat (length Msg))) as [Long|Short].
  - eexists. eexists. split; [apply a5hash_stream_run; lia|].
    intros q. apply a5hash_stream_run. lia.
  - destruct (Z_lt_le_dec 3 (Z.of_nat (length Msg))) as [Mid|Tiny].
    + eexists. eexists. split; [apply a5hash_mid_run; lia|].
      intros q. apply a5hash_mid_run. lia.
    + eexists. eexists. split; [apply a5hash_short_run; lia|].
      intros q. apply a5hash_short_run. lia.
Qed.

(** X3. For every message and seed [a5hash] returns a digest in
    [0, 2^64), and the digest and the loads are the same on every
    multiplication path; so are the value and the new state of [a5rand]. *)
Theorem a5hash_digest_portable p q (Msg : list byte) (seed s1 s2 : Z) :
  Z.of_nat (length Msg) < 2 ^ 64 ->
  (exists d log,
      a5hash p Msg (Z.of_nat (length Msg)) seed = Some (d, log)
      /\ a5hash q Msg (Z.of_nat (length Msg)) seed = Some (d, log)
      /\ 0 <= d < 2 ^ 64)
  /\ a5rand p s1 s2 = a5rand q s1 s2.
Proof.
  intros Hmax. split.
  - destruct (a5hash_succeeds p Msg seed Hmax) as (d & log & E & Eq).
    exists d, log. split; [exact E|]. split; [apply Eq|].
    pose proof (a5hash_result_u64 p Msg (Z.of_nat (length Msg)) seed) as R.
    rewrite E in R. exact R.
  - rewrite !a5rand_exact. reflexivity.
Qed.

Lemma a5hash_digest_portable_witness :
  Z.of_nat (length (repeat x41 20)) < 2 ^ 64
  /\ (exists d log,
      a5hash Portable (repeat x41 20) (Z.of_nat (length (repeat x41 20))) 5
        = Some (d, log)
      /\ a5hash MsvcAmd64 (repeat x41 20)
           (Z.of_nat (length (repeat x41 20))) 5 = Some (d, log)
      /\ 0 <= d < 2 ^ 64)
  /\ a5rand Portable 1 2 = a5rand MsvcAmd64 1 2.
Proof.
  assert (H : Z.of_nat (length (repeat x41 20)) < 2 ^ 64)
    by (rewrite repeat_length; lia).
  split; [exact H|].
  apply (a5hash_digest_portable Portable MsvcAmd64 (repeat x41 20) 5 1 2 H).
Defined.

(** ** No byte is left unread *)

Lemma byte_loads_cover n i :
  0 <= i < Z.of_nat n -> Exists (covers i) (byte_loads n).
Proof.
  intros Hi. apply Exists_exists. exists (mk_access i 1). split.
  - unfold byte_loads. apply in_map_iff. exists (Z.to_nat i). split.
    + rewrite Z2Nat.id by lia. reflexivity.
    + apply in_seq. lia.
  - unfold covers. cbn [acc_off acc_width]. lia.
Qed.

Lemma spec_mid_windows_cover len i :
  4 <= len <= 16 -> 0 <= i < len -> Exists (covers i) (spec_mid_windows len).
Proof.
  intros Hlen Hi. unfold spec_mid_windows.
  assert (C : 0 <= i < 4 \/ len - 4 <= i < len \/
              4 * (len / 8) <= i < 4 * (len / 8) + 4 \/
              len - 4 - 4 * (len / 8) <= i < len - 4 * (len / 8))
    by div_lia.
  destruct C as [C|[C|[C|C]]].
  - apply Exists_cons_hd. unfold covers; cbn [acc_off acc_width]; lia.
  - apply Exists_cons_tl, Exists_cons_hd.
    unfold covers; cbn [acc_off acc_width]; lia.
  - apply Exists_cons_tl, Exists_cons_tl, Exists_cons_hd.
    unfold covers; cbn [acc_off acc_width]; lia.
  - apply Exists_cons_tl, Exists_cons_tl, Exists_cons_tl, Exists_cons_hd.
    unfold covers; cbn [acc_off acc_width]; lia.
Qed.

(** The rounds read every byte but, at most, the last 16. *)
Lemma spec_stream_loads_cover i (fuel : nat) :
  forall pos rem, rem <= Z.of_nat fuel -> pos <= i < pos + rem - 16 ->
    Exists (covers i) (spec_stream_loads fuel pos rem).
Proof.
  induction fuel as [|fuel IH]; intros pos rem Hf Hi.
  - simpl in Hf. lia.
  - cbn [spec_stream_loads]. destruct (Z.ltb_spec 16 rem); [|lia].
    destruct (Z_lt_le_dec i (pos + 8)) as [A|A].
    + apply Exists_cons_hd. unfold covers; cbn [acc_off acc_width]; lia.
    + destruct (Z_lt_le_dec i (pos + 16)) as [B|B].
      * apply Exists_cons_tl, Exists_cons_hd.
        unfold covers; cbn [acc_off acc_width]; lia.
      * apply Exists_cons_tl, Exists_cons_tl, IH; lia.
Qed.

Lemma spec_tail_loads_cover len i :
  len - 16 <= i < len -> Exists (covers i) (spec_tail_loads len).
Proof.
  intros Hi. unfold spec_tail_loads.
  destruct (Z_lt_le_dec i (len - 8)) as [A|A].
  - apply Exists_cons_hd. unfold covers; cbn [acc_off acc_width]; lia.
  - apply Exists_cons_tl, Exists_cons_hd.
    unfold covers; cbn [acc_off acc_width]; lia.
Qed.

(** The rounds never read the last byte of the message. *)
Lemma spec_stream_loads_stop (fuel : nat) :
  forall pos rem, 1 <= rem ->
    Forall (fun a => acc_off a + acc_width a < pos + rem)
           (spec_stream_loads fuel pos rem).
Proof.
  induction fuel as [|fuel IH]; intros pos rem Hr.
  - apply Forall_nil.
  - cbn [spec_stream_loads]. destruct (Z.ltb_spec 16 rem).
    + repeat apply Forall_cons; cbn [acc_off acc_width]; try lia.
      replace (pos + rem) with (pos + 16 + (rem - 16)) by lia.
      apply IH. lia.
    + apply Forall_nil.
Qed.

(** X4. For a message of any length, every byte index below the length
    lies in the window of some load of [a5hash]: no byte is left unread.
    For more than 16 bytes the loads are those of the rounds followed by
    the two tail windows, and the rounds alone never reach the last byte. *)
Theorem a5hash_reads_every_byte path (Msg : list byte) (seed : Z) :
  Z.of_nat (length Msg) < 2 ^ 64 ->
  exists d log,
    a5hash path Msg (Z.of_nat (length Msg)) seed = Some (d, log)
    /\ (forall i, 0 <= i < Z.of_nat (length Msg) -> Exists (covers i) log)
    /\ (16 < Z.of_nat (length Msg) ->
        exists rounds,
          log = rounds ++ spec_tail_loads (Z.of_nat (length Msg))
          /\ Forall (fun a => acc_off a + acc_width a
                              < Z.of_nat (length Msg)) rounds).
Proof.
  intros Hmax.
  destruct (Z_lt_le_dec 16 (Z.of_nat (length Msg))) as [Long|Short].
  - eexists. eexists. split; [apply a5hash_stream_run; lia|]. split.
    + intros i Hi. apply Exists_app.
      destruct (Z_lt_le_dec i (Z.of_nat (length Msg) - 16)) as [A|A].
      * left. apply spec_stream_loads_cover; lia.
      * right. apply spec_tail_loads_cover. lia.
    + intros _. eexists. split; [reflexivity|].
      apply (spec_stream_loads_stop (length Msg) 0 (Z.of_nat (length Msg))).
      lia.
  - destruct (Z_lt_le_dec 3 (Z.of_nat (length Msg))) as [Mid|Tiny].
    + eexists. eexists. split; [apply a5hash_mid_run; lia|]. split.
      * intros i Hi. apply spec_mid_windows_cover; lia.
      * intros Hc. lia.
    + eexists. eexists. split; [apply a5hash_short_run; lia|]. split.
      * intros i Hi. apply byte_loads_cover. lia.
      * intros Hc. lia.
Qed.

Lemma a5hash_reads_every_byte_witness :
  Z.of_nat (length (repeat x30 37)) < 2 ^ 64
  /\ exists d log,
    a5hash Int128 (repeat x30 37) (Z.of_nat (length (repeat x30 37))) 0
      = Some (d, log)
    /\ (forall i, 0 <= i < Z.of_nat (length (repeat x30 37)) ->
          Exists (covers i) log)
    /\ (16 < Z.of_nat (length (repeat x30 37)) ->
        exists rounds,
          log = rounds ++ spec_tail_loads (Z.of_nat (length (repeat x30 37)))
          /\ Forall (fun a => acc_off a + acc_width a
                              < Z.of_nat (length (repeat x30 37))) rounds).
Proof.
  assert (H : Z.of_nat (length (repeat x30 37)) < 2 ^ 64)
    by (rewrite repeat_length; lia).
  split; [exact H|].
  apply (a5hash_reads_every_byte Int128 (repeat x30 37) 0 H).
Defined.

(** ** Messages of at most three bytes *)

Lemma spec_short_a_bound Msg :
  (length Msg <= 3)%nat ->
  0 <= spec_short_a Msg < 2 ^ (8 * Z.of_nat (length Msg)).
Proof.
  intros H. destruct Msg as [|m0 [|m1 [|m2 [|m3 rest]]]];
    [ | | | | simpl in H; lia ]; unfold spec_short_a;
    try pose proof (byte_val_range m0); try pose proof (byte_val_range m1);
    try pose proof (byte_val_range m2).
  - change (2 ^ (8 * Z.of_nat (length (@nil byte)))) with 1. lia.
  - change (2 ^ (8 * Z.of_nat (length [m0]))) with 256. lia.
  - change (2 ^ (8 * Z.of_nat (length [m0; m1]))) with 65536. lia.
  - change (2 ^ (8 * Z.of_nat (length [m0; m1; m2]))) with 16777216. lia.
Qed.

Lemma spec_short_a_inj Msg Msg' :
  (length Msg <= 3)%nat -> length Msg' = length Msg ->
  spec_short_a Msg' = spec_short_a Msg -> Msg' = Msg.
Proof.
  intros H Hsame E.
  destruct Msg as [|m0 [|m1 [|m2 [|m3 rest]]]];
    [ | | | | simpl in H; lia ];
    destruct Msg' as [|n0 [|n1 [|n2 [|n3 rest']]]];
    try discriminate Hsame; unfold spec_short_a in E;
    try pose proof (byte_val_range m0); try pose proof (byte_val_range m1);
    try pose proof (byte_val_range m2); try pose proof (byte_val_range n0);
    try pose proof (byte_val_range n1); try pose proof (byte_val_range n2).
  - reflexivity.
  - f_equal. apply byte_val_inj. lia.
  - assert (byte_val n0 = byte_val m0 /\ byte_val n1 = byte_val m1)
      as [E0 E1] by lia.
    apply byte_val_inj in E0, E1. subst. reflexivity.
  - assert (byte_val n0 = byte_val m0 /\ byte_val n1 = byte_val m1
            /\ byte_val n2 = byte_val m2) as (E0 & E1 & E2) by lia.
    apply byte_val_inj in E0, E1, E2. subst. reflexivity.
Qed.

(** X5. For a message of at most 3 bytes the branch makes [b = 0] and a
    word [a] below [2^(8 * length)], and [a] is the message: another
    message of the same length with the same [a] is the same message. *)
Theorem a5hash_short_word_is_message (Msg Msg' : list byte) :
  (length Msg <= 3)%nat -> length Msg' = length Msg ->
  (exists a, a5hash_short 0 (Z.of_nat (length Msg)) Msg
             = Some ((a, 0), byte_loads (length Msg))
             /\ 0 <= a < 2 ^ (8 * Z.of_nat (length Msg)))
  /\ (a5hash_short 0 (Z.of_nat (length Msg')) Msg'
      = a5hash_short 0 (Z.of_nat (length Msg)) Msg -> Msg' = Msg).
Proof.
  intros H Hsame. split.
  - exists (spec_short_a Msg). split; [apply a5hash_short_ok, H|].
    apply spec_short_a_bound, H.
  - rewrite !a5hash_short_ok by lia. intros E.
    apply (f_equal (fun o => match o with
                             | Some ((x, _), _) => x
                             | None => 0
                             end)) in E.
    cbv beta iota in E. apply spec_short_a_inj; assumption.
Qed.

Lemma a5hash_short_word_is_message_witness :
  (length [x61; x62] <= 3)%nat /\ length [x63; x64] = length [x61; x62]
  /\ (exists a, a5hash_short 0 (Z.of_nat (length [x61; x62])) [x61; x62]
             = Some ((a, 0), byte_loads (length [x61; x62]))
             /\ 0 <= a < 2 ^ (8 * Z.of_nat (length [x61; x62]))).
Proof.
  split; [simpl; lia|]. split; [reflexivity|].
  apply (a5hash_short_word_is_message [x61; x62] [x63; x64]).
  - simpl. lia.
  - reflexivity.
Defined.

(** ** States of [a5rand] that fall to zero *)

Lemma exact_product_zero u v :
  is_u64 u -> is_u64 v ->
  (exact_product u v = (0, 0) <-> u = 0 \/ v = 0).
Proof.
  intros Hu Hv. unfold exact_product. split.
  - intros E.
    pose proof (f_equal fst E) as E1. pose proof (f_equal snd E) as E2.
    cbn [fst snd] in E1, E2.
    pose proof (Z.div_mod (u * v) (2 ^ 64) ltac:(lia)) as D.
    rewrite E1, E2 in D. unfold is_u64 in *. nia.
  - intros [-> | ->]; [rewrite Z.mul_0_l | rewrite Z.mul_0_r]; reflexivity.
Qed.

Lemma wrapped_sum_zero s c :
  is_u64 s -> 0 < c < 2 ^ 64 -> (u64 (s + c) = 0 <-> s = 2 ^ 64 - c).
Proof.
  unfold is_u64, u64. intros Hs Hc. split.
  - intros E. div_lia.
  - intros ->. replace (2 ^ 64 - c + c) with (2 ^ 64) by lia. reflexivity.
Qed.

(** X6. From a state of 64-bit words, [a5rand] moves to the state [(0, 0)]
    exactly when [s1 = 0xAAAAAAAAAAAAAAAB] or [s2 = 0x5555555555555556]
    (one of the two sums wraps to zero), whatever the other word is; that
    call returns 0.  The state [(0, 0)] is not one of these, so the
    generator leaves it at the next call. *)
Theorem a5rand_zero_states path (s1 s2 : Z) :
  is_u64 s1 -> is_u64 s2 ->
  (a5rand_next path (s1, s2) = (0, 0)
   <-> s1 = 0xAAAAAAAAAAAAAAAB \/ s2 = 0x5555555555555556)
  /\ (a5rand_next path (s1, s2) = (0, 0) -> a5rand_output path (s1, s2) = 0)
  /\ a5rand_next path (0, 0) <> (0, 0).
Proof.
  intros H1 H2.
  assert (N : a5rand_next path (s1, s2) =
              exact_product (u64 (s1 + A5HASH_VAL01)) (u64 (s2 + A5HASH_VAL10))).
  { unfold a5rand_next. cbn [fst snd]. rewrite a5rand_exact. reflexivity. }
  assert (Z1 : u64 (s1 + A5HASH_VAL01) = 0 <-> s1 = 0xAAAAAAAAAAAAAAAB).
  { apply (wrapped_sum_zero s1 A5HASH_VAL01 H1).
    unfold A5HASH_VAL01. lia. }
  assert (Z2 : u64 (s2 + A5HASH_VAL10) = 0 <-> s2 = 0x5555555555555556).
  { apply (wrapped_sum_zero s2 A5HASH_VAL10 H2).
    unfold A5HASH_VAL10. lia. }
  split; [|split].
  - rewrite N, exact_product_zero by apply u64_range.
    rewrite Z1, Z2. reflexivity.
  - intros E. unfold a5rand_output. cbn [fst snd].
    rewrite a5rand_exact. cbn [fst]. rewrite N in E. rewrite E. reflexivity.
  - intros E.
    assert (N0 : a5rand_next path (0, 0) =
              exact_product (u64 (0 + A5HASH_VAL01)) (u64 (0 + A5HASH_VAL10))).
    { unfold a5rand_next. cbn [fst snd]. rewrite a5rand_exact. reflexivity. }
    rewrite N0 in E. apply exact_product_zero in E; try apply u64_range.
    destruct E as [E|E]; vm_compute in E; discriminate E.
Qed.

Lemma a5rand_zero_states_witness :
  is_u64 0xAAAAAAAAAAAAAAAB /\ is_u64 77
  /\ (a5rand_next Portable (0xAAAAAAAAAAAAAAAB, 77) = (0, 0)
      <-> 0xAAAAAAAAAAAAAAAB = 0xAAAAAAAAAAAAAAAB \/ 77 = 0x5555555555555556)
  /\ (a5rand_next Portable (0xAAAAAAAAAAAAAAAB, 77) = (0, 0) ->
      a5rand_output Portable (0xAAAAAAAAAAAAAAAB, 77) = 0)
  /\ a5rand_next Portable (0, 0) <> (0, 0).
Proof.
  assert (A : is_u64 0xAAAAAAAAAAAAAAAB) by (unfold is_u64; lia).
  assert (B : is_u64 77) by (unfold is_u64; lia).
  split; [exact A|]. split; [exact B|].
  apply (a5rand_zero_states Portable 0xAAAAAAAAAAAAAAAB 77 A B).
Defined.

(** ** The digest depends on the first [MsgLen] bytes only *)

Lemma window_in_prefix (L : Z) (b : list byte) (p : Z) (n : nat) :
  0 <= p -> p + Z.of_nat n <= L ->
  firstn n (skipn (Z.to_nat p) b) =
  firstn n (skipn (Z.to_nat p) (firstn (Z.to_nat L) b)).
Proof.
  intros H0 H1. rewrite skipn_firstn_comm, firstn_firstn.
  f_equal. lia.
Qed.

(** Where the loop stops: the bytes consumed and the bytes left add up to
    what it started with, and 1 to 16 bytes are left. *)
Lemma a5hash_loop_stops path v01 v10 (b : list byte) (fuel : nat) :
  forall pos rem s1 s2, 16 < rem < 2 ^ 64 ->
    match a5hash_loop path fuel pos rem s1 s2 v01 v10 b with
    | Some ((pos', rem', _, _), _) =>
        pos' + rem' = pos + rem /\ 1 <= rem' <= 16
    | None => True
    end.
Proof.
  induction fuel as [|fuel IH]; intros pos rem s1 s2 Hr.
  - exact I.
  - cbn [a5hash_loop]. unfold bind at 1.
    destruct (a5hash_lu64 pos b) as [[x lx]|]; [|exact I].
    unfold bind at 1.
    destruct (a5hash_lu64 (pos + 8) b) as [[y ly]|]; [|exact I].
    destruct (a5hash_umul128 path (Z.lxor s1 x) (Z.lxor s2 y)) as [lo hi].
    unfold usize. rewrite (Z.mod_small (rem - 16)) by lia.
    destruct (Z.ltb_spec 16 (rem - 16)) as [More|Done].
    + specialize (IH (pos + 16) (rem - 16) (u64 (lo + v01)) (u64 (hi + v10))
                     ltac:(lia)).
      destruct (a5hash_loop path fuel (pos + 16) (rem - 16) (u64 (lo + v01))
                  (u64 (hi + v10)) v01 v10 b)
        as [[[[[pos' rem'] s1'] s2'] l]|]; [|exact I].
      lia.
    + unfold ret. lia.
Qed.

Section Prefix.

Variables (L : Z) (buf buf' : list byte).
Hypothesis Hbuf : L <= Z.of_nat (length buf).
Hypothesis Hbuf' : L <= Z.of_nat (length buf').
Hypothesis Hsame : firstn (Z.to_nat L) buf = firstn (Z.to_nat L) buf'.

Lemma read_bytes_prefix (p : Z) (n : nat) :
  0 <= p -> p + Z.of_nat n <= L -> read_bytes p n buf = read_bytes p n buf'.
Proof.
  intros H0 H1. rewrite !read_bytes_ok by lia.
  rewrite (window_in_prefix L buf), (window_in_prefix L buf'), Hsame by lia.
  reflexivity.
Qed.

Lemma bind_prefix {A B : Type} (m : Load A) (k : A -> Load B) :
  m buf = m buf' ->
  (forall x l, m buf = Some (x, l) -> k x buf = k x buf') ->
  bind m k buf = bind m k buf'.
Proof.
  intros Em Ek. unfold bind. rewrite <- Em.
  destruct (m buf) as [[x l]|] eqn:E; [|reflexivity].
  rewrite (Ek x l eq_refl). reflexivity.
Qed.

Lemma a5hash_lu32_prefix p :
  0 <= p -> p + 4 <= L -> a5hash_lu32 p buf = a5hash_lu32 p buf'.
Proof.
  intros H0 H1. unfold a5hash_lu32. apply bind_prefix.
  - apply read_bytes_prefix; simpl; lia.
  - reflexivity.
Qed.

Lemma a5hash_lu64_prefix p :
  0 <= p -> p + 8 <= L -> a5hash_lu64 p buf = a5hash_lu64 p buf'.
Proof.
  intros H0 H1. unfold a5hash_lu64. apply bind_prefix.
  - apply read_bytes_prefix; simpl; lia.
  - reflexivity.
Qed.

Lemma msg_index_prefix i :
  0 <= i -> i + 1 <= L -> msg_index 0 i buf = msg_index 0 i buf'.
Proof.
  intros H0 H1. unfold msg_index. apply bind_prefix.
  - apply read_bytes_prefix; simpl; lia.
  - reflexivity.
Qed.

Lemma a5hash_short_prefix :
  0 <= L <= 3 -> a5hash_short 0 L buf = a5hash_short 0 L buf'.
Proof.
  intros HL. unfold a5hash_short.
  destruct (Z.eqb_spec L 0); [reflexivity|]. cbn [negb].
  apply bind_prefix; [apply msg_index_prefix; lia|]. intros a _ _.
  destruct (Z.eqb_spec L 1); [reflexivity|]. cbn [negb].
  apply bind_prefix; [apply msg_index_prefix; lia|]. intros m1 _ _.
  destruct (Z.eqb_spec L 2); [reflexivity|]. cbn [negb].
  apply bind_prefix; [apply msg_index_prefix; lia|]. intros m2 _ _.
  reflexivity.
Qed.

Lemma a5hash_mid_prefix :
  4 <= L <= 16 -> a5hash_mid 0 L buf = a5hash_mid 0 L buf'.
Proof.
  intros HL. unfold a5hash_mid. rewrite a5hash_mo_div by lia.
  unfold usize. rewrite (Z.mod_small (L / 8 * 4)) by div_lia.
  apply bind_prefix; [apply a5hash_lu32_prefix; lia|]. intros x0 _ _.
  apply bind_prefix; [apply a5hash_lu32_prefix; lia|]. intros x1 _ _.
  apply bind_prefix; [apply a5hash_lu32_prefix; div_lia|]. intros y0 _ _.
  apply bind_prefix; [apply a5hash_lu32_prefix; div_lia|]. intros y1 _ _.
  reflexivity.
Qed.

Lemma a5hash_loop_prefix path v01 v10 (fuel : nat) :
  forall pos rem s1 s2,
    0 <= pos -> pos + rem = L -> 16 < rem < 2 ^ 64 ->
    a5hash_loop path fuel pos rem s1 s2 v01 v10 buf =
    a5hash_loop path fuel pos rem s1 s2 v01 v10 buf'.
Proof.
  induction fuel as [|fuel IH]; intros pos rem s1 s2 Hp Hs Hr.
  - reflexivity.
  - cbn [a5hash_loop].
    apply bind_prefix; [apply a5hash_lu64_prefix; lia|]. intros x _ _.
    apply bind_prefix; [apply a5hash_lu64_prefix; lia|]. intros y _ _.
    destruct (a5hash_umul128 path (Z.lxor s1 x) (Z.lxor s2 y)) as [lo hi].
    unfold usize. rewrite (Z.mod_small (rem - 16)) by lia.
    destruct (Z.ltb_spec 16 (rem - 16)) as [More|Done].
    + apply IH; lia.
    + reflexivity.
Qed.

Lemma a5hash_stream_prefix path s1 s2 v01 v10 :
  16 < L < 2 ^ 64 ->
  a5hash_stream path 0 L s1 s2 v01 v10 buf =
  a5hash_stream path 0 L s1 s2 v01 v10 buf'.
Proof.
  intros HL. unfold a5hash_stream.
  apply bind_prefix; [apply a5hash_loop_prefix; lia|].
  intros r l E.
  pose proof (a5hash_loop_stops path (Z.lxor v01 s1) v10 buf (Z.to_nat L)
                0 L s1 s2 HL) as Stop.
  rewrite E in Stop. destruct r as [[[pos' rem'] s1'] s2'].
  apply bind_prefix; [apply a5hash_lu64_prefix; lia|]. intros a _ _.
  apply bind_prefix; [apply a5hash_lu64_prefix; lia|]. intros b _ _.
  reflexivity.
Qed.

Lemma a5hash_prefix path seed :
  0 <= L < 2 ^ 64 -> a5hash path buf L seed = a5hash path buf' L seed.
Proof.
  intros HL. unfold a5hash, a5hash_run.
  destruct (a5hash_init path L seed) as [[s1 s2] v10].
  apply bind_prefix.
  - unfold a5hash_ingest.
    destruct (Z.ltb_spec L 17); [destruct (Z.ltb_spec 3 L)|].
    + apply bind_prefix; [apply a5hash_mid_prefix; lia|].
      intros [a b] _ _. reflexivity.
    + apply bind_prefix; [apply a5hash_short_prefix; lia|].
      intros [a b] _ _. reflexivity.
    + apply a5hash_stream_prefix. lia.
  - intros [[[[a b] s1'] s2'] v01'] _ _. reflexivity.
Qed.

End Prefix.

Lemma a5hash_loads_below_length path Msg seed :
  Z.of_nat (length Msg) < 2 ^ 64 ->
  exists d log,
    a5hash path Msg (Z.of_nat (length Msg)) seed = Some (d, log)
    /\ Forall (in_bounds (Z.of_nat (length Msg))) log.
Proof.
  intros Hmax.
  destruct (Z_lt_le_dec 16 (Z.of_nat (length Msg))) as [Long|Short].
  - eexists. eexists. split; [apply a5hash_stream_run; lia|].
    apply Forall_app. split.
    + apply spec_stream_loads_in_bounds; lia.
    + apply spec_tail_loads_in_bounds; lia.
  - destruct (Z_lt_le_dec 3 (Z.of_nat (length Msg))) as [Mid|Tiny].
    + eexists. eexists. split; [apply a5hash_mid_run; lia|].
      apply spec_mid_windows_in_bounds; lia.
    + eexists. eexists. split; [apply a5hash_short_run; lia|].
      apply byte_loads_in_bounds; lia.
Qed.

(** X7. Called with a length [MsgLen] on a buffer that holds at least
    [MsgLen] bytes, [a5hash] succeeds, makes every load below offset
    [MsgLen], and returns the digest of the first [MsgLen] bytes: two
    buffers that agree on these bytes give the same digest and the same
    loads, whatever follows them. *)
Theorem a5hash_ignores_bytes_past_length path (buf buf' : list byte)
    (MsgLen seed : Z) :
  0 <= MsgLen < 2 ^ 64 ->
  MsgLen <= Z.of_nat (length buf) -> MsgLen <= Z.of_nat (length buf') ->
  firstn (Z.to_nat MsgLen) buf = firstn (Z.to_nat MsgLen) buf' ->
  a5hash path buf MsgLen seed = a5hash path buf' MsgLen seed
  /\ a5hash path buf MsgLen seed =
     a5hash path (firstn (Z.to_nat MsgLen) buf) MsgLen seed
  /\ exists d log,
       a5hash path buf MsgLen seed = Some (d, log)
       /\ Forall (in_bounds MsgLen) log.
Proof.
  intros HL Hb Hb' Hsame.
  assert (Lm : Z.of_nat (length (firstn (Z.to_nat MsgLen) buf)) = MsgLen).
  { rewrite length_firstn. lia. }
  assert (Em : a5hash path buf MsgLen seed =
               a5hash path (firstn (Z.to_nat MsgLen) buf) MsgLen seed).
  { apply (a5hash_prefix MsgLen); try lia.
    rewrite firstn_firstn. f_equal. lia. }
  split; [|split].
  - apply (a5hash_prefix MsgLen); assumption.
  - exact Em.
  - rewrite Em.
    destruct (a5hash_loads_below_length path
                (firstn (Z.to_nat MsgLen) buf) seed) as (d & log & E & B).
    { rewrite Lm. lia. }
    rewrite Lm in E, B. exists d, log. split; assumption.
Qed.

Lemma a5hash_ignores_bytes_past_length_witness :
  0 <= 20 < 2 ^ 64
  /\ 20 <= Z.of_nat (length (repeat x33 20 ++ [x01; x02]))
  /\ 20 <= Z.of_nat (length (repeat x33 20 ++ [xff]))
  /\ firstn (Z.to_nat 20) (repeat x33 20 ++ [x01; x02])
     = firstn (Z.to_nat 20) (repeat x33 20 ++ [xff])
  /\ a5hash Portable (repeat x33 20 ++ [x01; x02]) 20 4
     = a5hash Portable (repeat x33 20 ++ [xff]) 20 4.
Proof.
  assert (A : 20 <= Z.of_nat (length (repeat x33 20 ++ [x01; x02])))
    by (rewrite length_app, repeat_length; simpl; lia).
  assert (B : 20 <= Z.of_nat (length (repeat x33 20 ++ [xff])))
    by (rewrite length_app, repeat_length; simpl; lia).
  assert (C : firstn (Z.to_nat 20) (repeat x33 20 ++ [x01; x02])
              = firstn (Z.to_nat 20) (repeat x33 20 ++ [xff]))
    by reflexivity.
  split; [lia|]. split; [exact A|]. split; [exact B|]. split; [exact C|].
  apply (a5hash_ignores_bytes_past_length Portable
           (repeat x33 20 ++ [x01; x02]) (repeat x33 20 ++ [xff]) 20 4
           ltac:(lia) A B C).
Defined.

(** ** The last byte is always read *)

Lemma read_bytes_short p n buf :
  Z.of_nat (length buf) < p + Z.of_nat n -> read_bytes p n buf = None.
Proof.
  intros H. unfold read_bytes.
  destruct (Z.leb_spec (p + Z.of_nat n) (Z.of_nat (length buf))); [lia|].
  rewrite andb_false_r. reflexivity.
Qed.

Lemma bind_none_l {A B : Type} (m : Load A) (k : A -> Load B) buf :
  m buf = None -> bind m k buf = None.
Proof. intros E. unfold bind. rewrite E. reflexivity. Qed.

Lemma bind_none_r {A B : Type} (m : Load A) (k : A -> Load B) buf :
  (forall x l, m buf = Some (x, l) -> k x buf = None) -> bind m k buf = None.
Proof.
  intros H. unfold bind. destruct (m buf) as [[x l]|] eqn:E; [|reflexivity].
  rewrite (H x l eq_refl). reflexivity.
Qed.

Lemma a5hash_lu32_short p buf :
  Z.of_nat (length buf) < p + 4 -> a5hash_lu32 p buf = None.
Proof.
  intros H. apply bind_none_l, read_bytes_short. simpl. lia.
Qed.

Lemma a5hash_lu64_short p buf :
  Z.of_nat (length buf) < p + 8 -> a5hash_lu64 p buf = None.
Proof.
  intros H. apply bind_none_l, read_bytes_short. simpl. lia.
Qed.

Lemma msg_index_short i buf :
  Z.of_nat (length buf) < i + 1 -> msg_index 0 i buf = None.
Proof.
  intros H. apply bind_none_l, read_bytes_short. simpl. lia.
Qed.

Lemma a5hash_short_overrun L buf :
  1 <= L <= 3 -> Z.of_nat (length buf) < L -> a5hash_short 0 L buf = None.
Proof.
  intros HL Hb. unfold a5hash_short.
  destruct (Z.eqb_spec L 0); [lia|]. cbn [negb].
  destruct (Z.eqb_spec L 1) as [->|].
  { cbn [negb]. apply bind_none_l, msg_index_short. lia. }
  cbn [negb]. apply bind_none_r. intros a _ _.
  destruct (Z.eqb_spec L 2) as [->|].
  { cbn [negb]. apply bind_none_l, msg_index_short. lia. }
  cbn [negb]. apply bind_none_r. intros m1 _ _.
  apply bind_none_l, msg_index_short. lia.
Qed.

Lemma a5hash_mid_overrun L buf :
  4 <= L <= 16 -> Z.of_nat (length buf) < L -> a5hash_mid 0 L buf = None.
Proof.
  intros HL Hb. unfold a5hash_mid.
  apply bind_none_r. intros x0 _ _.
  apply bind_none_l, a5hash_lu32_short. lia.
Qed.

Lemma a5hash_stream_overrun path L s1 s2 v01 v10 buf :
  16 < L < 2 ^ 64 -> Z.of_nat (length buf) < L ->
  a5hash_stream path 0 L s1 s2 v01 v10 buf = None.
Proof.
  intros HL Hb. unfold a5hash_stream.
  apply bind_none_r. intros r l E.
  pose proof (a5hash_loop_stops path (Z.lxor v01 s1) v10 buf (Z.to_nat L)
                0 L s1 s2 HL) as Stop.
  rewrite E in Stop. destruct r as [[[pos' rem'] s1'] s2'].
  apply bind_none_r. intros a _ _.
  apply bind_none_l, a5hash_lu64_short. lia.
Qed.

Lemma a5hash_overrun path buf L seed :
  1 <= L < 2 ^ 64 -> Z.of_nat (length buf) < L ->
  a5hash path buf L seed = None.
Proof.
  intros HL Hb. unfold a5hash, a5hash_run.
  destruct (a5hash_init path L seed) as [[s1 s2] v10].
  apply bind_none_l. unfold a5hash_ingest.
  destruct (Z.ltb_spec L 17); [destruct (Z.ltb_spec 3 L)|].
  - apply bind_none_l, a5hash_mid_overrun; lia.
  - apply bind_none_l, a5hash_short_overrun; lia.
  - apply a5hash_stream_overrun; lia.
Qed.

(** X8. For a length [0 <= MsgLen < 2^64], [a5hash] stays inside the
    buffer exactly when the buffer holds at least [MsgLen] bytes: with
    fewer bytes some load leaves the buffer, since for [MsgLen >= 1] the
    byte at offset [MsgLen - 1] is always read. *)
Theorem a5hash_needs_exactly_the_message path (buf : list byte)
    (MsgLen seed : Z) :
  0 <= MsgLen < 2 ^ 64 ->
  ((exists d log, a5hash path buf MsgLen seed = Some (d, log))
   <-> MsgLen <= Z.of_nat (length buf))
  /\ (Z.of_nat (length buf) < MsgLen -> a5hash path buf MsgLen seed = None).
Proof.
  intros HL. split; [split|].
  - intros (d & log & E).
    destruct (Z_le_gt_dec MsgLen (Z.of_nat (length buf))) as [Ok|Over];
      [exact Ok|].
    rewrite a5hash_overrun in E by lia. discriminate E.
  - intros Ok.
    assert (Lm : Z.of_nat (length (firstn (Z.to_nat MsgLen) buf)) = MsgLen).
    { rewrite length_firstn. lia. }
    rewrite (a5hash_prefix MsgLen buf (firstn (Z.to_nat MsgLen) buf));
      try lia.
    + destruct (a5hash_loads_below_length path
                  (firstn (Z.to_nat MsgLen) buf) seed) as (d & log & E & _).
      { rewrite Lm. lia. }
      rewrite Lm in E. exists d, log. exact E.
    + rewrite firstn_firstn. f_equal. lia.
  - intros Over. apply a5hash_overrun; lia.
Qed.

Lemma a5hash_needs_exactly_the_message_witness :
  0 <= 18 < 2 ^ 64
  /\ Z.of_nat (length (repeat x55 17)) < 18
  /\ a5hash Int128 (repeat x55 17) 18 0 = None.
Proof.
  assert (B : Z.of_nat (length (repeat x55 17)) < 18)
    by (rewrite repeat_length; lia).
  split; [lia|]. split; [exact B|].
  destruct (a5hash_needs_exactly_the_message Int128 (repeat x55 17) 18 0
              ltac:(lia)) as [_ Fail].
  exact (Fail B).
Defined.

(** ** States that [a5rand] never reaches *)

Lemma exact_product_top u v :
  is_u64 u -> is_u64 v ->
  snd (exact_product u v) <= 2 ^ 64 - 2
  /\ (snd (exact_product u v) = 2 ^ 64 - 2 -> fst (exact_product u v) <= 1).
Proof.
  intros Hu Hv. unfold exact_product. cbn [fst snd].
  pose proof (Z.div_mod (u * v) (2 ^ 64) ltac:(lia)) as D.
  pose proof (Z.mod_pos_bound (u * v) (2 ^ 64) ltac:(lia)) as R.
  unfold is_u64 in Hu, Hv.
  assert (B : u * v <= (2 ^ 64 - 1) * (2 ^ 64 - 1)) by nia.
  split; [|intros E; rewrite E in D]; lia.
Qed.

Lemma a5rand_next_top path s :
  snd (a5rand_next path s) <= 2 ^ 64 - 2
  /\ (snd (a5rand_next path s) = 2 ^ 64 - 2 -> fst (a5rand_next path s) <= 1).
Proof.
  unfold a5rand_next. rewrite a5rand_exact. cbn [snd].
  apply exact_product_top; apply u64_range.
Qed.

(** X9. The second word of the state that [a5rand] leaves is at most
    [2^64 - 2], and the first word is at most 1 when it is [2^64 - 2]; so
    from no state, after any number [n >= 1] of calls, is the state one
    with [Seed2 = 0xFFFFFFFFFFFFFFFF]: a generator seeded with such a state
    never comes back to its seed. *)
Theorem a5rand_unreachable_states path (s1 s2 : Z) :
  snd (a5rand_next path (s1, s2)) <= 2 ^ 64 - 2
  /\ (snd (a5rand_next path (s1, s2)) = 2 ^ 64 - 2 ->
      fst (a5rand_next path (s1, s2)) <= 1)
  /\ (forall (n : N) (t1 : Z), (1 <= n)%N ->
        a5rand_states path n (s1, s2) <> (t1, 0xFFFFFFFFFFFFFFFF)).
Proof.
  destruct (a5rand_next_top path (s1, s2)) as [T1 T2].
  split; [exact T1|]. split; [exact T2|].
  intros n t1 Hn E. unfold a5rand_states in E.
  pose (m := N.pred n). assert (En : n = N.succ m) by lia.
  clearbody m. subst n. rewrite N.iter_succ in E.
  pose proof (a5rand_next_top path (N.iter m (a5rand_next path) (s1, s2)))
    as [T _].
  rewrite E in T. cbn [snd] in T. lia.
Qed.

Lemma a5rand_unreachable_states_witness :
  (1 <= 3)%N
  /\ a5rand_states Portable 3 (7, 0xFFFFFFFFFFFFFFFF)
     <> (7, 0xFFFFFFFFFFFFFFFF).
Proof.
  split; [lia|].
  destruct (a5rand_unreachable_states Portable 7 0xFFFFFFFFFFFFFFFF)
    as (_ & _ & Never).
  apply (Never 3%N 7). lia.
Defined.
